(** * Text and annotation extraction of the SSRQ to LCP converter

    A shallow embedding of [convert.py]: the walker [process_element], the
    text accumulator [add_text_to_context], the canonical-text extractor
    [get_element_text], the per-document driver [extract_document_data],
    the header reader [extract_metadata], the corpus loop [process_corpus]
    and, of [convert_to_lcp], the annotation check and the segment, token
    and form tables, followed by the properties the specification states
    about them and further properties of the code. *)

From Stdlib Require Import String Ascii.
From Stdlib Require Import List ZArith NArith Bool Lia Sorted.
Import ListNotations.

Local Open Scope Z_scope.

(** ** Python strings

    A Python [str] is a sequence of Unicode code points, and [len] counts
    code points: a character is its code point, a string a list of them. *)

Definition char := N.
Definition str := list char.

(** String literals of the source; all of them are ASCII. *)
Definition py (s : string) : str := map N_of_ascii (list_ascii_of_string s).

Definition space : char := 32%N.
Definition newline : char := 10%N.

(** [str.isspace] on one character, which is also the class [\s] of [re] on
    [str] patterns and the set removed by [str.strip()]: CPython's
    [Py_UNICODE_ISSPACE]. *)
Definition isspace (c : char) : bool :=
  ((9 <=? c) && (c <=? 13) || (28 <=? c) && (c <=? 32) || (c =? 133)
   || (c =? 160) || (c =? 5760) || (8192 <=? c) && (c <=? 8202)
   || (c =? 8232) || (c =? 8233) || (c =? 8239) || (c =? 8287)
   || (c =? 12288))%N.

Fixpoint str_eqb (a b : str) : bool :=
  match a, b with
  | [], [] => true
  | x :: a', y :: b' => N.eqb x y && str_eqb a' b'
  | _, _ => false
  end.

(** [a == b] on values that are [None] or a string. *)
Definition opt_str_eqb (a b : option str) : bool :=
  match a, b with
  | None, None => true
  | Some x, Some y => str_eqb x y
  | _, _ => false
  end.

(** Truth value of an object that is [None] or a string. *)
Definition truthy (o : option str) : bool :=
  match o with
  | Some (_ :: _) => true
  | _ => false
  end.

Definition or_empty (o : option str) : str :=
  match o with
  | Some s => s
  | None => []
  end.

(** [s.split(sep)[-1]]: what follows the last [sep], all of [s] without one. *)
Definition split_last (sep : char) (s : str) : str :=
  fold_left (fun acc c => if N.eqb c sep then [] else acc ++ [c]) s [].

Fixpoint lstrip (s : str) : str :=
  match s with
  | [] => []
  | c :: s' => if isspace c then lstrip s' else s
  end.

(** [s.strip()] *)
Definition strip (s : str) : str := rev (lstrip (rev (lstrip s))).

(** [re.sub] of the pattern [\s{m,}] by one space, for [m >= 1]: the scan
    gathers the maximal run of whitespace it is in; a run of [m] or more
    characters is a match and becomes one space, a shorter one has no match
    at any of its positions and is copied. *)
Definition flush (m : nat) (run : str) : str :=
  if (m <=? List.length run)%nat then [space] else run.

Fixpoint re_sub_ws_from (m : nat) (run s : str) : str :=
  match s with
  | [] => flush m run
  | c :: s' =>
      if isspace c then re_sub_ws_from m (run ++ [c]) s'
      else flush m run ++ c :: re_sub_ws_from m [] s'
  end.

Definition re_sub_ws (m : nat) (s : str) : str := re_sub_ws_from m [] s.

(** [remove_extra_spaces]: [re.sub(r"\s{2,}", " ", text.strip())] *)
Definition remove_extra_spaces (text : str) : str := re_sub_ws 2 (strip text).

(** [s.replace("\n", "")] *)
Definition remove_newlines (s : str) : str :=
  filter (fun c => negb (N.eqb c newline)) s.

(** [s[i:j]] with Python's clamping of both bounds. *)
Definition clamp (len i : Z) : Z :=
  if i <? 0 then Z.max 0 (i + len) else Z.min i len.

Definition slice (s : str) (i j : Z) : str :=
  let len := Z.of_nat (List.length s) in
  let a := clamp len i in
  let b := clamp len j in
  firstn (Z.to_nat (b - a)) (skipn (Z.to_nat a) s).

(** ** The markup tree

    An ElementTree node: [tag] is the qualified name ([{uri}local]), [text]
    and [tail] are [None] or a string, [attrib] is the attribute dictionary
    and the children are iterated in document order. *)

Local Unset Elimination Schemes.

Inductive Element : Type :=
  mkElement (tag : str) (attrib : list (str * str)) (text tail : option str)
            (children : list Element).

Local Set Elimination Schemes.

Definition tag (e : Element) : str :=
  match e with mkElement t _ _ _ _ => t end.
Definition attrib (e : Element) : list (str * str) :=
  match e with mkElement _ a _ _ _ => a end.
Definition text (e : Element) : option str :=
  match e with mkElement _ _ x _ _ => x end.
Definition tail (e : Element) : option str :=
  match e with mkElement _ _ _ x _ => x end.
Definition children (e : Element) : list Element :=
  match e with mkElement _ _ _ _ cs => cs end.

(** [element.tag.split("}")[-1]] *)
Definition element_name (e : Element) : str := split_last 125%N (tag e).

(** [element.get(key)] *)
Fixpoint get (a : list (str * str)) (key : str) : option str :=
  match a with
  | [] => None
  | (k, v) :: a' => if str_eqb k key then Some v else get a' key
  end.

(** [element.iter()]: the element and its descendants in document order. *)
Fixpoint iter (e : Element) : list Element :=
  match e with
  | mkElement _ _ _ _ cs => e :: flat_map iter cs
  end.

Definition tei (local : string) : str :=
  py "{http://www.tei-c.org/ns/1.0}" ++ py local.

(** [element.find(".//tei:local", namespaces)]: the first proper descendant
    with that qualified tag, in document order, or [None]. *)
Definition find_descendant (local : string) (e : Element) : option Element :=
  find (fun x => str_eqb (tag x) (tei local)) (flat_map iter (children e)).

(** ** Canonical text *)

Definition is_del (child : Element) : bool :=
  str_eqb (element_name child) (py "del").

Fixpoint get_element_text (element : Element) : str :=
  match element with
  | mkElement _ _ tx _ cs =>
      remove_extra_spaces
        (or_empty tx ++
         flat_map (fun child =>
                     (if is_del child then [] else get_element_text child)
                     ++ or_empty (tail child)) cs)
  end.

(** [get_element_text(x) if x is not None else None] *)
Definition text_of_found (o : option Element) : option str :=
  option_map get_element_text o.

(** ** Annotations, pages and the traversal context *)

Record Annotation : Type := mkAnnotation {
  ann_type : str;
  attributes : option (list (str * str));
  ann_text : option str;
  alternative_text : option str;
  start_offset : Z;
  end_offset : Z;
  page : option str;
  details : option (option str * option str)   (* deleted, added *)
}.

Record Page : Type := mkPage {
  page_num : str;
  offset : Z
}.

(** The [context] dictionary. [text_content] is the list of appended
    characters, oldest first. *)
Record Context : Type := mkContext {
  text_content : str;
  annotations : list Annotation;
  pages : list Page;
  current_page : option str;
  global_offset : Z;
  ctx_alternative_text : option str;
  last_char_is_whitespace : bool
}.

Definition append_char (c : char) (ws : bool) (ctx : Context) : Context :=
  mkContext (text_content ctx ++ [c]) (annotations ctx) (pages ctx)
            (current_page ctx) (global_offset ctx + 1)
            (ctx_alternative_text ctx) ws.

Definition append_annotation (a : Annotation) (ctx : Context) : Context :=
  mkContext (text_content ctx) (annotations ctx ++ [a]) (pages ctx)
            (current_page ctx) (global_offset ctx)
            (ctx_alternative_text ctx) (last_char_is_whitespace ctx).

Definition set_page (p : str) (ctx : Context) : Context :=
  mkContext (text_content ctx) (annotations ctx)
            (pages ctx ++ [mkPage p (global_offset ctx)])
            (Some p) (global_offset ctx)
            (ctx_alternative_text ctx) (last_char_is_whitespace ctx).

(** ** The text accumulator *)

(** One turn of the loop [for char in text] of [add_text_to_context]. *)
Definition add_char (ctx : Context) (c : char) : Context :=
  if isspace c then
    if negb (last_char_is_whitespace ctx) then append_char c true ctx
    else ctx
  else append_char c false ctx.

Definition add_text_to_context (t : option str) (ctx : Context) : Context :=
  if negb (truthy t) then ctx
  else fold_left add_char (re_sub_ws 1 (or_empty t)) ctx.

(** [if t: add_text_to_context(t, context)] *)
Definition add_if (t : option str) (ctx : Context) : Context :=
  if truthy t then add_text_to_context t ctx else ctx.

(** ** The walker *)

Definition structural : list str :=
  map py ["div"; "p"; "body"; "text"; "group"; "lb"; "pb"; "choice";
          "subst"; "del"; "add"; "abbr"; "expan"]%string.

Definition is_name (e : Element) (n : string) : bool :=
  str_eqb (element_name e) (py n).

Definition choice_annotation (chosen alt : option str) (start : Z)
    (ctx : Context) : Annotation :=
  mkAnnotation (py "choice") None chosen alt start (global_offset ctx)
               (current_page ctx) None.

Definition note_annotation (note_text : str) (ctx : Context) : Annotation :=
  mkAnnotation (py "note") None (Some note_text) None (global_offset ctx)
               (global_offset ctx + Z.of_nat (List.length note_text))
               (current_page ctx) None.

Definition subst_annotation (add_text del_text : option str) (start : Z)
    (ctx : Context) : Annotation :=
  mkAnnotation (py "substitution") None add_text del_text start
               (global_offset ctx) (current_page ctx)
               (Some (del_text, add_text)).

Definition generic_annotation (e : Element) (start : Z) (ctx : Context)
    : Annotation :=
  mkAnnotation (element_name e) (Some (attrib e))
               (Some (get_element_text e)) None start (global_offset ctx)
               (current_page ctx) None.

(** The closing block of [process_element], reached by every branch that
    does not return early. *)
Definition annotate (e : Element) (start : Z) (ctx : Context) : Context :=
  if negb (existsb (str_eqb (element_name e)) structural) then
    match attrib e with
    | [] => ctx
    | _ :: _ => append_annotation (generic_annotation e start ctx) ctx
    end
  else ctx.

Definition page_break (e : Element) (ctx : Context) : Context :=
  let n := get (attrib e) (py "n") in
  if truthy n then set_page (or_empty n) ctx else ctx.

Definition line_break (ctx : Context) : Context := append_char newline true ctx.

Definition choice (e : Element) (ctx : Context) : Context :=
  let start := global_offset ctx in
  let abbr_text := text_of_found (find_descendant "abbr" e) in
  let expan_text := text_of_found (find_descendant "expan" e) in
  let chosen_text := if truthy expan_text then expan_text else abbr_text in
  let alt :=
    if opt_str_eqb chosen_text expan_text then abbr_text else expan_text in
  let ctx1 := add_if chosen_text ctx in
  append_annotation (choice_annotation chosen_text alt start ctx1) ctx1.

Definition note (e : Element) (ctx : Context) : Context :=
  let ctx1 :=
    if negb (last_char_is_whitespace ctx) then append_char space true ctx
    else ctx in
  append_annotation (note_annotation (get_element_text e) ctx1) ctx1.

Definition subst (e : Element) (ctx : Context) : Context :=
  let start := global_offset ctx in
  let del_text := text_of_found (find_descendant "del" e) in
  let add_text := text_of_found (find_descendant "add" e) in
  let ctx1 := add_if add_text ctx in
  append_annotation (subst_annotation add_text del_text start ctx1) ctx1.

(** [process_element] updates the context in place and returns its
    [global_offset]; here it returns the updated context, and the returned
    number is [process_element_result]. *)
Fixpoint process_element (element : Element) (ctx : Context) : Context :=
  let start := global_offset ctx in
  if is_name element "pb" then annotate element start (page_break element ctx)
  else if is_name element "lb" then annotate element start (line_break ctx)
  else if is_name element "choice" then choice element ctx
  else if is_name element "note" then note element ctx
  else if is_name element "subst" then subst element ctx
  else
    match element with
    | mkElement _ _ tx _ cs =>
        let ctx1 := add_if tx ctx in
        let ctx2 :=
          fold_left (fun c child => add_if (tail child) (process_element child c))
                    cs ctx1 in
        annotate element start ctx2
    end.

Definition process_element_result (element : Element) (ctx : Context) : Z :=
  global_offset (process_element element ctx).

(** ** One document *)

Definition initial_context : Context :=
  mkContext [] [] [] None 0 None true.

(** The part of [extract_document_data] that follows the parse. *)
Definition extract_context (root : Element) : Context :=
  match find_descendant "body" root with
  | Some body => process_element body initial_context
  | None => initial_context
  end.

Definition extract_text (root : Element) : str :=
  text_content (extract_context root).

Definition extract_annotations (root : Element) : list Annotation :=
  annotations (extract_context root).

Definition extract_pages (root : Element) : list Page :=
  pages (extract_context root).

(** ** The corpus loop

    [ET.parse] and [extract_metadata] are taken as they come: the parse of a
    file gives its root element or raises, and what it raises is kept as the
    text of the exception. The extraction that follows the parse can raise
    too, in the interpreter rather than in the code: the recursion of
    [process_element] and [get_element_text] ends in a [RecursionError] on a
    tree nested deeper than the interpreter allows. [raised root] is the
    text of the exception the extraction of [root] ends in, [None] when it
    returns. *)

Section Corpus.

Variable Metadata : Type.
Variable extract_metadata : Element -> Metadata.
Variable parse : str -> Element + str.
Variable raised : Element -> option str.

Record Document : Type := mkDocument {
  file_path : str;
  metadata : Metadata;
  doc_text : str;
  doc_annotations : list Annotation
}.

Definition extract_document_data (path : str) : Document + str :=
  match parse path with
  | inl root =>
      match raised root with
      | Some e => inr e
      | None =>
          inl (mkDocument path (extract_metadata root) (extract_text root)
                          (extract_annotations root))
      end
  | inr e => inr e
  end.

Definition error_line (path e : str) : str :=
  py "Error processing " ++ path ++ py ": " ++ e.

(** The inner loop of [process_corpus], with what it prints. *)
Definition process_file (st : list Document * list str) (path : str)
    : list Document * list str :=
  match extract_document_data path with
  | inl doc_data => (fst st ++ [doc_data], snd st)
  | inr e => (fst st, snd st ++ [error_line path e])
  end.

Definition process_files (file_paths : list str) (printed : list str)
    : list Document * list str :=
  fold_left process_file file_paths ([], printed).

(** [d[k] = v] on a dictionary kept in insertion order. *)
Fixpoint dict_set {V : Type} (d : list (str * V)) (k : str) (v : V)
    : list (str * V) :=
  match d with
  | [] => [(k, v)]
  | (k', v') :: d' =>
      if str_eqb k' k then (k, v) :: d' else (k', v') :: dict_set d' k v
  end.

Definition process_subdir (st : list (str * list Document) * list str)
    (item : str * list str) : list (str * list Document) * list str :=
  let r := process_files (snd item) (snd st) in
  (dict_set (fst st) (fst item) (fst r), snd r).

Definition process_corpus (xml_files_by_subdir : list (str * list str))
    : list (str * list Document) * list str :=
  fold_left process_subdir xml_files_by_subdir ([], []).

End Corpus.

Arguments mkDocument {Metadata}.
Arguments file_path {Metadata}.
Arguments metadata {Metadata}.
Arguments doc_text {Metadata}.
Arguments doc_annotations {Metadata}.

(** ** The annotation check of [convert_to_lcp]

    For each document the loop over its annotations writes one row per
    annotation it keeps. A row is modelled by its table, its id and its
    character range; the third column, an id taken from a lookup table,
    plays no part in the check and is left out, as are the segment and token
    tables written before the loop. *)

Definition annotation_types : list str :=
  map py ["placeName"; "choice"; "origDate"; "persName"; "substitution";
          "date"]%string.

Record Row : Type := mkRow {
  row_table : str;
  row_id : Z;
  row_start : Z;
  row_end : Z
}.

(** The state of the loop: the variable [text], the dictionary
    [annotation_counters] and the rows written so far. *)
Record Lcp : Type := mkLcp {
  lcp_text : str;
  annotation_counters : list (str * Z);
  rows : list Row
}.

Fixpoint counter (d : list (str * Z)) (k : str) : Z :=
  match d with
  | [] => 0
  | (k', v) :: d' => if str_eqb k' k then v else counter d' k
  end.

Fixpoint increment (d : list (str * Z)) (k : str) : list (str * Z) :=
  match d with
  | [] => []
  | (k', v) :: d' =>
      if str_eqb k' k then (k', v + 1) :: d' else (k', v) :: increment d' k
  end.

(** [check_cond], after the fallback. *)
Definition check_cond (text : str) (a : Annotation) : bool :=
  if opt_str_eqb (Some (slice text (start_offset a) (end_offset a)))
                 (ann_text a)
  then true
  else opt_str_eqb
         (Some (slice (remove_newlines text) (start_offset a) (end_offset a)))
         (ann_text a).

(** The branches for [placeName] and [persName] assign the annotation's text
    to the variable [text]. *)
Definition rebinds_text (t : str) : bool :=
  str_eqb t (py "placeName") || str_eqb t (py "persName").

Definition lcp_annotation (st : Lcp) (a : Annotation) : Lcp :=
  let t := ann_type a in
  if negb (existsb (str_eqb t) annotation_types) then st
  else if negb (check_cond (lcp_text st) a) then st
  else
    let ann_id := counter (annotation_counters st) t in
    mkLcp (if rebinds_text t then or_empty (ann_text a) else lcp_text st)
          (increment (annotation_counters st) t)
          (rows st ++ [mkRow t ann_id (start_offset a) (end_offset a)]).

Definition initial_counters : list (str * Z) :=
  map (fun t => (t, 1)) annotation_types.

(** One turn of the loop over the documents: [text = doc_data["text"]],
    then the annotations; the document's own row is written in every case. *)
Definition lcp_document {M : Type}
    (st : list (str * Z) * list Row * list Z * Z) (doc : Document M)
    : list (str * Z) * list Row * list Z * Z :=
  let '(counters, written, doc_rows, document_id) := st in
  let r := fold_left lcp_annotation (doc_annotations doc)
                     (mkLcp (doc_text doc) counters written) in
  (annotation_counters r, rows r, doc_rows ++ [document_id], document_id + 1).

Definition convert_to_lcp {M : Type}
    (corpus_data : list (str * list (Document M))) : list Row * list Z :=
  let '(_, written, doc_rows, _) :=
    fold_left lcp_document (flat_map snd corpus_data)
              (initial_counters, [], [], 1) in
  (written, doc_rows).

(** The rows the loop writes for one document on its own. *)
Definition kept_rows (text : str) (anns : list Annotation) : list Row :=
  rows (fold_left lcp_annotation anns (mkLcp text initial_counters [])).

(** ** What the specification says, in its own words *)

Definition to_space (c : char) : char := if isspace c then space else c.

(** "Collapses internal whitespace runs to single spaces and trims
    leading/trailing whitespace." *)
Definition spec_normalize (s : str) : str := re_sub_ws 1 (strip s).

(** The canonical text as the specification describes it. *)
Fixpoint spec_canonical_text (node : Element) : str :=
  match node with
  | mkElement _ _ tx _ cs =>
      spec_normalize
        (or_empty tx ++
         flat_map (fun child =>
                     (if is_del child then [] else spec_canonical_text child)
                     ++ or_empty (tail child)) cs)
  end.

(** The reconciliation as the specification describes it: the slice is
    compared with the stored text, then both are compared with their
    newlines removed; an annotation is kept when one of the two agrees. *)
Definition spec_check (text : str) (a : Annotation) : bool :=
  let s := slice text (start_offset a) (end_offset a) in
  opt_str_eqb (Some s) (ann_text a)
  || opt_str_eqb (Some (remove_newlines s))
                 (option_map remove_newlines (ann_text a)).

Definition spec_kept (text : str) (anns : list Annotation)
    : list Annotation :=
  filter (fun a => existsb (str_eqb (ann_type a)) annotation_types
                   && spec_check text a) anns.

(** The line breaks the walker meets: those outside the special forms,
    whose children it does not visit. *)
Fixpoint lb_count (e : Element) : nat :=
  if is_name e "pb" then 0%nat
  else if is_name e "lb" then 1%nat
  else if is_name e "choice" then 0%nat
  else if is_name e "note" then 0%nat
  else if is_name e "subst" then 0%nat
  else
    match e with
    | mkElement _ _ _ _ cs => list_sum (map lb_count cs)
    end.

(** ** Predicates the properties are stated with *)

(** The induction principle of the tree: the property may be assumed of
    every child. *)
Fixpoint Element_ind (P : Element -> Prop)
    (H : forall t a tx tl cs, Forall P cs -> P (mkElement t a tx tl cs))
    (e : Element) : P e :=
  match e with
  | mkElement t a tx tl cs =>
      H t a tx tl cs
        ((fix all (l : list Element) : Forall P l :=
            match l with
            | [] => Forall_nil P
            | c :: l' => Forall_cons c (Element_ind P H c) (all l')
            end) cs)
  end.

Definition head_ws (s : str) : bool :=
  match s with
  | c :: _ => isspace c
  | [] => false
  end.

(** No two whitespace characters side by side. *)
Fixpoint no_adj (s : str) : bool :=
  match s with
  | c1 :: t => negb (isspace c1 && head_ws t) && no_adj t
  | [] => true
  end.

Definition last_ws (b : str) : bool :=
  match rev b with
  | [] => true
  | c :: _ => isspace c
  end.

(** Of two whitespace characters side by side the second is a newline. *)
Definition adj_ok (b : str) : Prop :=
  forall pre c1 c2 post,
    b = pre ++ c1 :: c2 :: post ->
    isspace c1 = true -> isspace c2 = true -> c2 = newline.

Definition ws_ok (b : str) : Prop :=
  Forall (fun c => isspace c = true -> c = space \/ c = newline) b.

(** The state of the buffer the whitespace flag stands for. *)
Definition WsInv (ctx : Context) : Prop :=
  last_char_is_whitespace ctx = last_ws (text_content ctx)
  /\ adj_ok (text_content ctx)
  /\ ws_ok (text_content ctx).

Definition in_range (lo hi : Z) (a : Annotation) : Prop :=
  ann_type a <> py "note" ->
  lo <= start_offset a /\ start_offset a <= end_offset a /\ end_offset a <= hi.

(** [Step n ctx ctx']: [ctx'] comes from [ctx] by appending characters, [n]
    of them newlines, and annotations; the position has advanced by the
    number of characters appended, each new annotation that is not a note
    lies between the two positions, and the buffer's whitespace state is
    kept. *)
Definition Step (n : nat) (ctx ctx' : Context) : Prop :=
  exists delta new,
    text_content ctx' = text_content ctx ++ delta
    /\ global_offset ctx' = global_offset ctx + Z.of_nat (List.length delta)
    /\ annotations ctx' = annotations ctx ++ new
    /\ Forall (in_range (global_offset ctx) (global_offset ctx')) new
    /\ count_occ N.eq_dec delta newline = n
    /\ (WsInv ctx -> WsInv ctx').

Ltac conjuncts := repeat match goal with |- _ /\ _ => split end.


(** What the accumulator leaves alone. *)
Definition same_frame (ctx ctx' : Context) : Prop :=
  annotations ctx' = annotations ctx
  /\ pages ctx' = pages ctx
  /\ current_page ctx' = current_page ctx
  /\ ctx_alternative_text ctx' = ctx_alternative_text ctx.

(** A text with neither leading nor doubled whitespace. *)
Definition canonical (s : str) : Prop :=
  head_ws s = false /\ no_adj s = true.

(** The line breaks the walker meets in a document. *)
Definition walked_line_breaks (root : Element) : nat :=
  match find_descendant "body" root with
  | Some body => lb_count body
  | None => 0%nat
  end.

(** ** The scenarios of the specification *)

Definition node (local : string) := mkElement (tei local).
Definition lit (s : string) : option str := Some (py s).

Definition document (body : Element) : Element :=
  node "TEI" [] None None [node "text" [] None None [body]].

(** [foo<lb/>bar] *)
Definition body_line_break : Element :=
  node "body" [] (lit "foo") None [node "lb" [] None (lit "bar") []].

(** [Treaty of <choice><abbr>Jan.</abbr><expan>January</expan></choice> 1291] *)
Definition choice_january : Element :=
  node "choice" [] None (lit " 1291")
       [node "abbr" [] (lit "Jan.") None [];
        node "expan" [] (lit "January") None []].

Definition body_choice : Element :=
  node "body" [] (lit "Treaty of ") None [choice_january].



(** [word<note>comment</note>next] *)
Definition note_comment : Element :=
  node "note" [] (lit "comment") (lit "next") [].

Definition body_note : Element :=
  node "body" [] (lit "word") None [note_comment].

(** [foo <lb/>bar]: the source has a space before the line break. *)
Definition body_spaced_break : Element :=
  node "body" [] (lit "foo ") None [node "lb" [] None (lit "bar") []].

(** Decides the tests on a tag name that is known. *)
Ltac decide_names :=
  repeat match goal with
    | |- context [str_eqb (py ?a) (py ?b)] =>
        let v := eval vm_compute in (str_eqb (py a) (py b)) in
        change (str_eqb (py a) (py b)) with v
    | |- context [existsb (str_eqb (py ?a)) structural] =>
        let v := eval vm_compute in (existsb (str_eqb (py a)) structural) in
        change (existsb (str_eqb (py a)) structural) with v
    end;
  cbn [negb]; cbv iota.














(** [<p>a(newline)b</p>]: one newline between two letters. *)
Definition p_lone_newline : Element :=
  node "p" [] (Some [97; 10; 98]%N) None [].

(** The parts [get_element_text] joins: the node's text, then for each child
    its extracted text, unless it is a deletion, and its tail. *)
Definition text_parts (e : Element) : str :=
  or_empty (text e) ++
  flat_map (fun child =>
              (if is_del child then [] else get_element_text child)
              ++ or_empty (tail child)) (children e).

(** Two names, [Hans] and [Fritz], with a space between them. *)
Definition body_two_names : Element :=
  node "body" [] None None
    [node "persName" [(py "ref", py "a")] (lit "Hans") (lit " ") [];
     node "persName" [(py "ref", py "b")] (lit "Fritz") None []].

(** [x<lb/><persName ref="a">a<lb/>b</persName>cd]: a name that runs over a
    line break, after an earlier line break. *)
Definition body_name_across_break : Element :=
  node "body" [] (lit "x") None
    [node "lb" [] None None [];
     node "persName" [(py "ref", py "a")] (lit "a") (lit "cd")
          [node "lb" [] None (lit "b") []]].

(** A choice with no expansion, and the same with an empty one. *)
Definition choice_no_expan : Element :=
  node "choice" [] None None [node "abbr" [] (lit "Jan.") None []].

Definition choice_empty_expan : Element :=
  node "choice" [] None None
       [node "abbr" [] (lit "Jan.") None []; node "expan" [] None None []].

(** A choice with neither side, and one with both sides empty. *)
Definition choice_bare : Element := node "choice" [] None None [].

Definition choice_empty_sides : Element :=
  node "choice" [] None None
       [node "abbr" [] None None []; node "expan" [] None None []].

(** The loop over the children in the default branch of [process_element]. *)
Definition walk_children (cs : list Element) (ctx : Context) : Context :=
  fold_left (fun c child => add_if (tail child) (process_element child c))
            cs ctx.

(** The documents of the files whose extraction returns, and the lines
    printed for those whose extraction raises, in the parse or after it,
    both in the order of the files. *)
Definition extracted {M : Type} (extract_metadata : Element -> M)
    (parse : str -> Element + str) (raised : Element -> option str)
    (files : list str) : list (Document M) :=
  flat_map (fun path =>
              match extract_document_data M extract_metadata parse raised
                                          path with
              | inl d => [d]
              | inr _ => []
              end) files.

Definition error_lines (parse : str -> Element + str)
    (raised : Element -> option str) (files : list str) : list str :=
  flat_map (fun path =>
              match parse path with
              | inl root =>
                  match raised root with
                  | Some e => [error_line path e]
                  | None => []
                  end
              | inr e => [error_line path e]
              end) files.

(** A loader for which [bad.xml] does not parse and [deep.xml] gives a tree
    nested one level deeper than the others, and an interpreter that gives
    up on the deeper tree. *)
Definition parse_example (path : str) : Element + str :=
  if str_eqb path (py "bad.xml") then inr (py "not well-formed")
  else if str_eqb path (py "deep.xml") then inl (document body_choice)
  else inl (document body_note).

Fixpoint depth (e : Element) : nat :=
  match e with
  | mkElement _ _ _ _ cs => S (list_max (map depth cs))
  end.

Definition raised_example (root : Element) : option str :=
  if (4 <? depth root)%nat
  then Some (py "maximum recursion depth exceeded")
  else None.


(** ** Predicates for the records of a traversal *)

Definition last_page_label (pg : list Page) : option str :=
  match rev pg with
  | [] => None
  | p :: _ => Some (page_num p)
  end.

(** The three shapes an annotation has: the one of the closing block of
    [process_element], which alone carries attributes, the one of a note,
    and the one of a choice or a substitution, whose offsets cut its text
    out of the buffer [b]. *)
Definition well_formed (b : str) (a : Annotation) : Prop :=
  match attributes a with
  | Some at' =>
      at' <> []
      /\ existsb (str_eqb (ann_type a)) structural = false
      /\ ann_type a <> py "note"
      /\ (exists t, ann_text a = Some t /\ canonical t)
      /\ alternative_text a = None
      /\ details a = None
  | None =>
      (ann_type a = py "note"
       /\ 0 <= start_offset a <= Z.of_nat (List.length b)
       /\ exists t, ann_text a = Some t
                    /\ end_offset a
                       = start_offset a + Z.of_nat (List.length t))
      \/ ((ann_type a = py "choice" /\ details a = None
           \/ ann_type a = py "substitution"
              /\ details a = Some (alternative_text a, ann_text a))
          /\ 0 <= start_offset a
          /\ end_offset a
             = start_offset a
               + Z.of_nat (List.length (or_empty (ann_text a)))
          /\ end_offset a <= Z.of_nat (List.length b)
          /\ slice b (start_offset a) (end_offset a)
             = map to_space (or_empty (ann_text a)))
  end.

Definition page_known (pg : list Page) (a : Annotation) : Prop :=
  page a = None \/ exists p, In p pg /\ page a = Some (page_num p).

(** The text starts with no whitespace other than a forced newline. *)
Definition head_ok (b : str) : Prop :=
  match b with
  | c :: _ => isspace c = true -> c = newline
  | [] => True
  end.

(** What holds of the context all along a traversal. *)
Definition Good (ctx : Context) : Prop :=
  WsInv ctx
  /\ head_ok (text_content ctx)
  /\ global_offset ctx = Z.of_nat (List.length (text_content ctx))
  /\ Forall (well_formed (text_content ctx)) (annotations ctx)
  /\ Forall (page_known (pages ctx)) (annotations ctx)
  /\ Forall (fun p => 0 <= offset p <= global_offset ctx
                      /\ page_num p <> []) (pages ctx)
  /\ StronglySorted Z.le (map offset (pages ctx))
  /\ current_page ctx = last_page_label (pages ctx).

(** The annotations of the scenarios. *)
Definition january_annotation : Annotation :=
  mkAnnotation (py "choice") None (lit "January") (lit "Jan.") 10 17 None None.

Definition comment_annotation : Annotation :=
  mkAnnotation (py "note") None (lit "comment") None 5 12 None None.

Definition hans_annotation : Annotation :=
  mkAnnotation (py "persName") (Some [(py "ref", py "a")]) (lit "Hans") None
               0 4 None None.

(** [<pb n="1r"/>one<pb/><pb n="1v"/>two]: three page breaks, the second
    without a number. *)
Definition body_pages : Element :=
  node "body" [] None None
    [node "pb" [(py "n", py "1r")] None (lit "one") [];
     node "pb" [] None None [];
     node "pb" [(py "n", py "1v")] None (lit "two") []].

(** ** Further definitions *)

Definition not_space (c : char) : bool := negb (isspace c).

(** The text of a subtree as the extractor reads it, before any
    normalization: the node's text, then for each child its own text,
    unless it is a deletion, and its tail. *)
Fixpoint raw_text (e : Element) : str :=
  match e with
  | mkElement _ _ tx _ cs =>
      or_empty tx ++
      flat_map (fun child =>
                  (if is_del child then [] else raw_text child)
                  ++ or_empty (tail child)) cs
  end.

(** ** Predicates for the export *)

(** The annotation's type has a table. *)
Definition handled (a : Annotation) : bool :=
  existsb (str_eqb (ann_type a)) annotation_types.

(** The rows of one table, in the order they were written. *)
Definition table_rows (t : str) (rs : list Row) : list Row :=
  filter (fun r => str_eqb (row_table r) t) rs.

(** The numbers [1], [2], ..., [n]. *)
Definition count_up (n : nat) : list Z := map Z.of_nat (seq 1 n).

Definition row_shape (r : Row) : str * Z * Z :=
  (row_table r, row_start r, row_end r).

Definition annotation_shape (a : Annotation) : str * Z * Z :=
  (ann_type a, start_offset a, end_offset a).

(** Two documents with the same body. *)
Definition two_documents : list (str * list (Document unit)) :=
  [(py "FR",
    [mkDocument (py "a.xml") tt (extract_text (document body_choice))
                (extract_annotations (document body_choice));
     mkDocument (py "b.xml") tt (extract_text (document body_choice))
                (extract_annotations (document body_choice))])].

(** The counters against the rows: every table's counter is one more than
    the number of its rows, whose ids count up from 1. *)
Definition Numbered (counters : list (str * Z)) (rs : list Row) : Prop :=
  map fst counters = annotation_types
  /\ forall t, In t annotation_types ->
       counter counters t = 1 + Z.of_nat (List.length (table_rows t rs))
       /\ map row_id (table_rows t rs)
          = count_up (List.length (table_rows t rs)).

(** The row was written for one of the annotations, whose type has a table
    and whose text is not [None], with the annotation's own offsets. *)
Definition row_from (anns : list Annotation) (r : Row) : Prop :=
  exists a, In a anns /\ handled a = true
            /\ (exists t, ann_text a = Some t)
            /\ row_shape r = annotation_shape a.

Definition never_rebinds (a : Annotation) : bool :=
  negb (rebinds_text (ann_type a)).

Definition passes (text : str) (a : Annotation) : bool :=
  handled a && check_cond text a.

(** A corpus of two subdirectories, the second with nothing but a file that
    does not parse and one on whose tree the extraction raises. *)
Definition two_subdirs : list (str * list str) :=
  [(py "FR", [py "a.xml"; py "bad.xml"]);
   (py "GE", [py "bad.xml"; py "deep.xml"])].

(** Whether the extraction of a file returns. *)
Definition returns {M : Type} (extract_metadata : Element -> M)
    (parse : str -> Element + str) (raised : Element -> option str)
    (path : str) : bool :=
  match extract_document_data M extract_metadata parse raised path with
  | inl _ => true
  | inr _ => false
  end.

(** ** Segments and tokens of the export

    The part of [convert_to_lcp] that runs before the annotations of each
    document: the text is cut into segments at newlines, a segment into
    tokens at the delimiters, and every token gets a form and a character
    range in a numbering of its own, which starts at 1 and runs through the
    whole corpus. [uuid.uuid4()] is taken as it comes: [uuid4 n] is the
    n-th identifier drawn. *)

(** [s.split(sep)] for a one-character separator and [re.split] for a
    class of characters: the pieces between the separators, empty ones
    included. *)
Fixpoint split_on (p : char -> bool) (s : str) : list str :=
  match s with
  | [] => [[]]
  | c :: s' =>
      if p c then [] :: split_on p s'
      else match split_on p s' with
           | piece :: rest => (c :: piece) :: rest
           | [] => [[c]]
           end
  end.

Definition is_newline (c : char) : bool := N.eqb c newline.

(** The class [[', ]] of [token_delimiters]. *)
Definition is_delimiter (c : char) : bool :=
  N.eqb c 39%N || N.eqb c 44%N || N.eqb c 32%N.

Definition nonempty (s : str) : bool :=
  match s with
  | [] => false
  | _ :: _ => true
  end.

(** [[t for t in re.split(token_delimiters, segment) if t]] *)
Definition tokens_of (segment : str) : list str :=
  filter nonempty (split_on is_delimiter segment).

(** [d.get(k)] on a dictionary kept in insertion order. *)
Fixpoint dict_get {V : Type} (d : list (str * V)) (k : str) : option V :=
  match d with
  | [] => None
  | (k', v) :: d' => if str_eqb k' k then Some v else dict_get d' k
  end.

Record TokenRow : Type := mkTokenRow {
  tok_id : Z;
  tok_form : Z;
  tok_lemma : Z;
  tok_start : Z;
  tok_end : Z;
  tok_segment : str
}.

Record SegmentRow : Type := mkSegmentRow {
  seg_id : str;
  seg_start : Z;
  seg_end : Z
}.

(** The counters [char_offset] and [token_id], the dictionary [form_dict]
    and the rows written to the form, token and segment tables (the lemma
    table gets the rows of the form table). *)
Record Tokens : Type := mkTokens {
  char_offset : Z;
  token_id : Z;
  form_dict : list (str * Z);
  form_rows : list (Z * str);
  token_rows : list TokenRow;
  segment_rows : list SegmentRow
}.

Definition initial_tokens : Tokens := mkTokens 1 1 [] [] [] [].

(** One turn of the loop [for token in tokens]. *)
Definition lcp_token (seg : str) (st : Tokens) (token : str) : Tokens :=
  let form_id :=
    match dict_get (form_dict st) token with
    | Some v => v
    | None => Z.of_nat (List.length (form_dict st)) + 1
    end in
  let known :=
    match dict_get (form_dict st) token with
    | Some _ => true
    | None => false
    end in
  mkTokens (char_offset st + Z.of_nat (List.length token) + 1)
           (token_id st + 1)
           (if known then form_dict st
            else form_dict st ++ [(token, form_id)])
           (if known then form_rows st
            else form_rows st ++ [(form_id, token)])
           (token_rows st
            ++ [mkTokenRow (token_id st) form_id form_id (char_offset st)
                           (char_offset st + Z.of_nat (List.length token))
                           seg])
           (segment_rows st).

Section Segments.

Variable uuid4 : nat -> str.

(** One turn of the loop [for segment in segments]. *)
Definition lcp_segment (st : Tokens) (segment : str) : Tokens :=
  let segment := strip segment in
  if negb (nonempty segment) then st
  else
    let seg := uuid4 (List.length (segment_rows st)) in
    let start := char_offset st in
    let st1 := fold_left (lcp_token seg) (tokens_of segment) st in
    mkTokens (char_offset st1 + 1) (token_id st1) (form_dict st1)
             (form_rows st1) (token_rows st1)
             (segment_rows st1
              ++ [mkSegmentRow seg start (char_offset st1 - 1)]).

(** The segments of one document: [text.split("\n")]. *)
Definition lcp_segments (st : Tokens) (text : str) : Tokens :=
  fold_left lcp_segment (split_on is_newline text) st.

(** The segments of all documents, with the range written in each
    document's row: [[doc_start, char_offset - 1)]. *)
Definition lcp_tokens_document (acc : Tokens * list (Z * Z)) (text : str)
    : Tokens * list (Z * Z) :=
  let st := lcp_segments (fst acc) text in
  (st, snd acc ++ [(char_offset (fst acc), char_offset st - 1)]).

Definition lcp_tokens (texts : list str) : Tokens * list (Z * Z) :=
  fold_left lcp_tokens_document texts (initial_tokens, []).

End Segments.

(** [text.join(pieces)] for a one-character text. *)
Fixpoint join (sep : char) (pieces : list str) : str :=
  match pieces with
  | [] => []
  | [p] => p
  | p :: rest => p ++ sep :: join sep rest
  end.

(** The characters a list of tokens takes in the numbering: each token and
    the place after it. *)
Definition span (tokens : list str) : Z :=
  fold_right (fun t n => Z.of_nat (List.length t) + 1 + n) 0 tokens.

(** Identifiers for the examples. *)
Definition uuid_example (n : nat) : str := py "seg-" ++ [N.of_nat (48 + n)].

(** What holds of the token tables all along. *)
Definition token_ok (st : Tokens) (r : TokenRow) : Prop :=
  1 <= tok_start r /\ tok_start r < tok_end r /\ tok_end r < char_offset st
  /\ tok_lemma r = tok_form r
  /\ exists tok, In (tok, tok_form r) (form_dict st)
                 /\ tok_end r - tok_start r = Z.of_nat (List.length tok).

Definition before (r1 r2 : TokenRow) : Prop := tok_end r1 < tok_start r2.

Definition TokInv (st : Tokens) : Prop :=
  1 <= char_offset st
  /\ token_id st = 1 + Z.of_nat (List.length (token_rows st))
  /\ map tok_id (token_rows st) = count_up (List.length (token_rows st))
  /\ NoDup (map fst (form_dict st))
  /\ map snd (form_dict st) = count_up (List.length (form_dict st))
  /\ form_rows st = map (fun kv => (snd kv, fst kv)) (form_dict st)
  /\ Forall (token_ok st) (token_rows st)
  /\ StronglySorted before (token_rows st).

Definition not_delimiter (c : char) : bool := negb (is_delimiter c).

(** Ranges that follow one another: each starts where the numbering stands,
    [s] at first, ends no earlier than one before its start, and leaves the
    numbering one after its end; [f] is where the numbering stands at the
    end. *)
Fixpoint chained (s : Z) (ranges : list (Z * Z)) (f : Z) : Prop :=
  match ranges with
  | [] => s = f
  | (a, b) :: rest => a = s /\ s - 1 <= b /\ chained (b + 1) rest f
  end.

(** ** The header metadata

    [extract_metadata] reads the TEI header with ElementTree paths of the
    shape [.//a/b] and [.//a/b/c]: the [b] children of the proper
    descendants tagged [a], in document order, and their [c] children. The
    result is a dictionary whose values are strings, or a list of strings
    for the editors. *)

Inductive Value : Type :=
  | VStr (s : str)
  | VList (l : list str).

Definition tagged (local : string) (e : Element) : bool :=
  str_eqb (tag e) (tei local).

Definition descendants (local : string) (e : Element) : list Element :=
  filter (tagged local) (flat_map iter (children e)).

Definition child_elements (local : string) (e : Element) : list Element :=
  filter (tagged local) (children e).

(** [root.findall(".//tei:a/tei:b", namespaces)] *)
Definition findall2 (a b : string) (root : Element) : list Element :=
  flat_map (child_elements b) (descendants a root).

(** [root.findall(".//tei:a/tei:b/tei:c", namespaces)] *)
Definition findall3 (a b c : string) (root : Element) : list Element :=
  flat_map (child_elements c) (findall2 a b root).

(** [root.find(".//tei:a/tei:b", namespaces)] *)
Definition find2 (a b : string) (root : Element) : option Element :=
  hd_error (findall2 a b root).

(** A value that is [None] or a string inside an f-string. *)
Definition formatted (o : option str) : str :=
  match o with
  | Some s => s
  | None => py "None"
  end.

Definition stripped_text (e : Element) : str := strip (or_empty (text e)).

Definition set_title (root : Element) (md : list (str * Value))
    : list (str * Value) :=
  match find2 "titleStmt" "title" root with
  | Some title_elem =>
      if truthy (text title_elem)
      then dict_set md (py "title") (VStr (stripped_text title_elem))
      else md
  | None => md
  end.

Definition editors (root : Element) : list str :=
  map stripped_text
      (filter (fun editor => truthy (text editor))
              (findall3 "titleStmt" "editor" "persName" root)).

Definition set_date (md : list (str * Value)) (date : Element)
    : list (str * Value) :=
  let date_type := get (attrib date) (py "type") in
  let date_when := get (attrib date) (py "when") in
  if truthy date_type && truthy date_when
  then dict_set md (py "date_" ++ or_empty date_type)
                (VStr (or_empty date_when))
  else md.

Definition set_repository (md : list (str * Value)) (repo : Element)
    : list (str * Value) :=
  let lang := get (attrib repo) (tei "lang") in
  if truthy (text repo) && truthy lang
  then dict_set md (py "repository_" ++ or_empty lang)
                (VStr (stripped_text repo))
  else md.

Definition set_idno (md : list (str * Value)) (idno : Element)
    : list (str * Value) :=
  let lang := get (attrib idno) (tei "lang") in
  if truthy (text idno)
  then dict_set md (py "idno_" ++ formatted lang) (VStr (stripped_text idno))
  else md.

Definition set_orig_date (root : Element) (md : list (str * Value))
    : list (str * Value) :=
  match find2 "origin" "origDate" root with
  | Some orig_date =>
      dict_set
        (dict_set md (py "origDate_when")
                  (VStr (or_empty (get (attrib orig_date) (py "when")))))
        (py "origDate_text") (VStr (get_element_text orig_date))
  | None => md
  end.

Definition extract_metadata (root : Element) : list (str * Value) :=
  let md := set_title root [] in
  let md := dict_set md (py "editors") (VList (editors root)) in
  let md := fold_left set_date
                      (findall2 "publicationStmt" "date" root) md in
  let md := fold_left set_repository
                      (findall2 "msIdentifier" "repository" root) md in
  let md := fold_left set_idno (findall2 "msIdentifier" "idno" root) md in
  set_orig_date root md.

Definition trimmed (s : str) : Prop :=
  head_ws s = false /\ head_ws (rev s) = false.

(** A header with a title, two editors, an identifier without language and
    a date of origin without [when]. *)
Definition header_example : Element :=
  node "TEI" [] None None
    [node "teiHeader" [] None None
       [node "titleStmt" [] None None
          [node "title" [] (lit "  Stadtrecht  ") None [];
           node "editor" [] None None
                [node "persName" [] (lit " A. B. ") None []];
           node "editor" [] None None [node "persName" [] None None []]];
        node "msIdentifier" [] None None
          [node "idno" [] (lit "StAZH 1") None []];
        node "origin" [] None None
          [node "origDate" [] (lit "1291  August") None []]]].

(** The annotations the walker records under a node: one for each special
    form it meets, one for each other node it walks that has attributes and
    a tag that is not structural. *)
Fixpoint annotated (e : Element) : nat :=
  if is_name e "pb" then 0%nat
  else if is_name e "lb" then 0%nat
  else if is_name e "choice" then 1%nat
  else if is_name e "note" then 1%nat
  else if is_name e "subst" then 1%nat
  else
    match e with
    | mkElement _ a _ _ cs =>
        (list_sum (map annotated cs)
         + if negb (existsb (str_eqb (element_name e)) structural)
           then match a with [] => 0 | _ :: _ => 1 end
           else 0)%nat
    end.

Definition walked_annotations (root : Element) : nat :=
  match find_descendant "body" root with
  | Some body => annotated body
  | None => 0%nat
  end.
(** * Properties *)

(** ** Characters and strings *)

Lemma isspace_space : isspace space = true.
Proof. reflexivity. Qed.

Lemma isspace_newline : isspace newline = true.
Proof. reflexivity. Qed.

Lemma str_eqb_eq (a b : str) : str_eqb a b = true <-> a = b.
Proof.
  revert b; induction a as [|x a IH]; intros [|y b]; simpl;
    try (split; [discriminate | discriminate]); try tauto.
  rewrite andb_true_iff, N.eqb_eq, IH.
  split; [intros [-> ->]; reflexivity | intros H; injection H; auto].
Qed.

Lemma str_eqb_refl (a : str) : str_eqb a a = true.
Proof. apply str_eqb_eq; reflexivity. Qed.

Lemma isspace_to_space (c : char) : isspace (to_space c) = isspace c.
Proof.
  unfold to_space; destruct (isspace c) eqn:E; [reflexivity | exact E].
Qed.

Lemma to_space_not_ws (c : char) : isspace c = false -> to_space c = c.
Proof. unfold to_space; intros ->; reflexivity. Qed.

(** ** The whitespace normalizers *)

Lemma lstrip_head (s : str) : head_ws (lstrip s) = false.
Proof.
  induction s as [|c s IH]; simpl; [reflexivity|].
  destruct (isspace c) eqn:E; [exact IH | simpl; exact E].
Qed.

Lemma lstrip_suffix (s : str) : exists w, s = w ++ lstrip s.
Proof.
  induction s as [|c s [w IH]]; simpl.
  - exists []; reflexivity.
  - destruct (isspace c).
    + exists (c :: w); simpl; f_equal; exact IH.
    + exists []; reflexivity.
Qed.

Lemma strip_tail (s : str) : head_ws (rev (strip s)) = false.
Proof. unfold strip; rewrite rev_involutive; apply lstrip_head. Qed.

Lemma strip_head (s : str) : head_ws (strip s) = false.
Proof.
  unfold strip.
  pose proof (lstrip_head s) as Hu.
  destruct (lstrip_suffix (rev (lstrip s))) as [w Hw].
  destruct (lstrip (rev (lstrip s))) as [|c v] eqn:Ev using rev_ind;
    [reflexivity|].
  clear IHv.
  apply (f_equal (@rev char)) in Hw.
  rewrite rev_involutive, rev_app_distr in Hw.
  rewrite rev_app_distr in *; simpl in *.
  rewrite Hw in Hu; exact Hu.
Qed.

Lemma lstrip_map_to_space (s : str) :
  lstrip (map to_space s) = map to_space (lstrip s).
Proof.
  induction s as [|c s IH]; simpl; [reflexivity|].
  rewrite isspace_to_space; destruct (isspace c); [exact IH | reflexivity].
Qed.

Lemma strip_map_to_space (s : str) :
  strip (map to_space s) = map to_space (strip s).
Proof.
  unfold strip.
  now rewrite lstrip_map_to_space, <- map_rev, lstrip_map_to_space, map_rev.
Qed.

Lemma to_space_idem (c : char) : to_space (to_space c) = to_space c.
Proof.
  unfold to_space at 1; rewrite isspace_to_space.
  unfold to_space; destruct (isspace c); reflexivity.
Qed.

Lemma flush_1 (run : str) :
  flush 1 run = match run with [] => [] | _ :: _ => [space] end.
Proof. destruct run; reflexivity. Qed.

Lemma flush_2_short (run : str) : (List.length (flush 2 run) <= 1)%nat.
Proof.
  unfold flush; destruct (2 <=? List.length run)%nat eqn:E; simpl; [lia|].
  apply Nat.leb_gt in E; lia.
Qed.

Lemma flush_to_space (run : str) :
  Forall (fun c => isspace c = true) run ->
  map to_space (flush 2 run) = flush 1 run.
Proof.
  intros H; destruct run as [|x [|y run]]; try reflexivity.
  inversion H as [|? ? Hx _]; subst; cbn.
  unfold to_space; now rewrite Hx.
Qed.

(** Up to the character that stands for a lone whitespace, the two
    substitutions agree. *)
Lemma re_sub_2_to_space (s run : str) :
  Forall (fun c => isspace c = true) run ->
  map to_space (re_sub_ws_from 2 run s) = re_sub_ws_from 1 run s.
Proof.
  revert run; induction s as [|c s IH]; intros run Hrun; simpl.
  - now apply flush_to_space.
  - destruct (isspace c) eqn:E.
    + apply IH, Forall_app; split; [exact Hrun | repeat constructor; exact E].
    + rewrite map_app; simpl.
      rewrite flush_to_space, (to_space_not_ws c E) by exact Hrun.
      do 2 f_equal; apply IH; constructor.
Qed.

Lemma re_sub_1_map_to_space (s run : str) :
  re_sub_ws_from 1 (map to_space run) (map to_space s)
  = re_sub_ws_from 1 run s.
Proof.
  revert run; induction s as [|c s IH]; intros run; simpl.
  - rewrite !flush_1; destruct run; reflexivity.
  - rewrite isspace_to_space; destruct (isspace c) eqn:E.
    + rewrite <- IH, map_app; reflexivity.
    + pose proof (IH []) as IH0; simpl in IH0.
      rewrite (to_space_not_ws c E), IH0, !flush_1.
      destruct run; reflexivity.
Qed.

(** What [re.sub(r"\s+", " ", _)] leaves of whitespace is spaces. *)
Lemma re_sub_1_spaces (s run : str) :
  Forall (fun c => isspace c = true -> c = space) (re_sub_ws_from 1 run s).
Proof.
  revert run; induction s as [|c s IH]; intros run; simpl.
  - rewrite flush_1; destruct run; repeat constructor.
  - destruct (isspace c) eqn:E; [apply IH|].
    apply Forall_app; split.
    + rewrite flush_1; destruct run; repeat constructor.
    + constructor; [congruence | apply IH].
Qed.

Lemma no_adj_cons_clean (c : char) (s : str) :
  isspace c = false -> no_adj (c :: s) = no_adj s.
Proof. intros E; simpl; now rewrite E. Qed.

Lemma no_adj_short_app (f : str) (c : char) (s : str) :
  (List.length f <= 1)%nat -> isspace c = false ->
  no_adj (f ++ c :: s) = no_adj s.
Proof.
  intros Hf E; destruct f as [|x [|y f]]; simpl in *; try lia.
  - now rewrite E.
  - now rewrite E, andb_false_r.
Qed.

(** [re.sub(r"\s{2,}", " ", _)] leaves no two whitespace characters side by
    side. *)
Lemma re_sub_2_no_adj (s run : str) : no_adj (re_sub_ws_from 2 run s) = true.
Proof.
  revert run; induction s as [|c s IH]; intros run; simpl.
  - pose proof (flush_2_short run) as H.
    destruct (flush 2 run) as [|x [|y f]]; simpl in *;
      [reflexivity | now rewrite andb_false_r | lia].
  - destruct (isspace c) eqn:E; [apply IH|].
    rewrite no_adj_short_app by (auto using flush_2_short); apply IH.
Qed.

Lemma re_sub_app_clean (m : nat) (s : str) (c : char) (s' run : str) :
  isspace c = false ->
  re_sub_ws_from m run (s ++ c :: s')
  = re_sub_ws_from m run s ++ c :: re_sub_ws_from m [] s'.
Proof.
  intros E; revert run; induction s as [|x s IH]; intros run; simpl.
  - now rewrite E.
  - destruct (isspace x); [apply IH|].
    rewrite IH, <- app_assoc; reflexivity.
Qed.

Lemma remove_extra_spaces_head (t : str) :
  head_ws (remove_extra_spaces t) = false.
Proof.
  unfold remove_extra_spaces, re_sub_ws.
  pose proof (strip_head t) as H.
  destruct (strip t) as [|c s]; simpl in *; [reflexivity|].
  rewrite H; simpl; exact H.
Qed.

Lemma remove_extra_spaces_tail (t : str) :
  head_ws (rev (remove_extra_spaces t)) = false.
Proof.
  unfold remove_extra_spaces, re_sub_ws.
  pose proof (strip_tail t) as H.
  destruct (strip t) as [|c s] using rev_ind; [reflexivity|].
  rewrite rev_app_distr in H; simpl in H.
  rewrite re_sub_app_clean by exact H.
  rewrite rev_app_distr; simpl; exact H.
Qed.

Lemma remove_extra_spaces_no_adj (t : str) :
  no_adj (remove_extra_spaces t) = true.
Proof. apply re_sub_2_no_adj. Qed.

Lemma remove_extra_spaces_to_space (t : str) :
  map to_space (remove_extra_spaces t) = spec_normalize t.
Proof. apply re_sub_2_to_space; constructor. Qed.

(** ** The canonical-text extractor *)

Lemma get_element_text_eq (e : Element) :
  get_element_text e
  = remove_extra_spaces
      (or_empty (text e) ++
       flat_map (fun child =>
                   (if is_del child then [] else get_element_text child)
                   ++ or_empty (tail child)) (children e)).
Proof. destruct e; reflexivity. Qed.

Lemma get_element_text_head (e : Element) :
  head_ws (get_element_text e) = false.
Proof. rewrite get_element_text_eq; apply remove_extra_spaces_head. Qed.

Lemma get_element_text_no_adj (e : Element) :
  no_adj (get_element_text e) = true.
Proof. rewrite get_element_text_eq; apply remove_extra_spaces_no_adj. Qed.

Lemma spec_normalize_map_to_space (s : str) :
  spec_normalize (map to_space s) = spec_normalize s.
Proof.
  unfold spec_normalize, re_sub_ws.
  rewrite strip_map_to_space.
  apply (re_sub_1_map_to_space (strip s) []).
Qed.

(** Read with every whitespace character as a space, the extractor's result
    is the canonical text of the specification. *)
Lemma get_element_text_to_space (e : Element) :
  map to_space (get_element_text e) = spec_canonical_text e.
Proof.
  induction e as [t a tx tl cs IH] using Element_ind.
  cbn [get_element_text spec_canonical_text].
  rewrite remove_extra_spaces_to_space.
  rewrite <- spec_normalize_map_to_space.
  rewrite <- (spec_normalize_map_to_space (_ ++ flat_map _ cs)).
  f_equal; rewrite !map_app; f_equal.
  induction IH as [|c cs Hc _ IHcs]; simpl; [reflexivity|].
  rewrite !map_app, IHcs; do 2 f_equal.
  destruct (is_del c); [reflexivity|].
  rewrite <- Hc, map_map.
  apply map_ext; intros x; symmetry; apply to_space_idem.
Qed.

(** ** The accumulator and the walker: what one step may do *)

Lemma in_range_weaken (lo hi lo' hi' : Z) (a : Annotation) :
  lo' <= lo -> hi <= hi' -> in_range lo hi a -> in_range lo' hi' a.
Proof. unfold in_range; intros ? ? H Hn; specialize (H Hn); lia. Qed.

Lemma Step_refl (ctx : Context) : Step 0 ctx ctx.
Proof.
  exists [], []; rewrite !app_nil_r; simpl.
  conjuncts; auto; lia.
Qed.

Lemma Step_trans (n m : nat) (a b c : Context) :
  Step n a b -> Step m b c -> Step (n + m) a c.
Proof.
  intros (d1 & n1 & T1 & O1 & A1 & R1 & C1 & W1)
         (d2 & n2 & T2 & O2 & A2 & R2 & C2 & W2).
  exists (d1 ++ d2), (n1 ++ n2).
  rewrite T2, T1, A2, A1, O2, O1, !app_assoc, length_app, count_occ_app.
  conjuncts; auto; try lia.
  apply Forall_app; split.
  - eapply Forall_impl; [|exact R1]; intros x; apply in_range_weaken; lia.
  - eapply Forall_impl; [|exact R2]; intros x; apply in_range_weaken; lia.
Qed.

Lemma Step_0_trans (a b c : Context) : Step 0 a b -> Step 0 b c -> Step 0 a c.
Proof. apply (Step_trans 0 0). Qed.

Lemma last_ws_snoc (b : str) (c : char) : last_ws (b ++ [c]) = isspace c.
Proof. unfold last_ws; rewrite rev_app_distr; reflexivity. Qed.

Lemma adj_ok_snoc (b : str) (c : char) :
  adj_ok b ->
  last_ws b = false \/ isspace c = false \/ c = newline ->
  adj_ok (b ++ [c]).
Proof.
  intros Hb Hc pre c1 c2 post E H1 H2.
  destruct post as [|x post _] using rev_ind.
  - change (pre ++ [c1; c2]) with (pre ++ [c1] ++ [c2]) in E.
    rewrite app_assoc in E; apply app_inj_tail in E as [-> ->].
    rewrite last_ws_snoc in Hc.
    destruct Hc as [Hc | [Hc | Hc]]; congruence.
  - change (pre ++ c1 :: c2 :: post ++ [x])
      with (pre ++ (c1 :: c2 :: post) ++ [x]) in E.
    rewrite app_assoc in E; apply app_inj_tail in E as [-> _].
    eapply Hb; eauto.
Qed.

Lemma Step_append_char (c : char) (ctx : Context) :
  last_char_is_whitespace ctx = false \/ isspace c = false \/ c = newline ->
  (isspace c = true -> c = space \/ c = newline) ->
  Step (count_occ N.eq_dec [c] newline) ctx (append_char c (isspace c) ctx).
Proof.
  intros Hadj Hws; exists [c], []; simpl.
  rewrite app_nil_r; conjuncts; auto.
  intros (F & A & W); unfold WsInv; simpl.
  rewrite last_ws_snoc; conjuncts; [reflexivity | |].
  - apply adj_ok_snoc; [exact A | rewrite <- F; exact Hadj].
  - apply Forall_app; split; [exact W | constructor; [exact Hws | constructor]].
Qed.

Lemma Step_append_annotation (a : Annotation) (ctx : Context) :
  in_range (global_offset ctx) (global_offset ctx) a ->
  Step 0 ctx (append_annotation a ctx).
Proof.
  intros H; exists [], [a]; simpl.
  rewrite app_nil_r, Z.add_0_r; conjuncts; auto.
Qed.

Lemma count_newline_other (c : char) :
  c <> newline -> count_occ N.eq_dec [c] newline = 0%nat.
Proof. intros H; apply count_occ_cons_neq; exact H. Qed.

Lemma Step_add_char (c : char) (ctx : Context) :
  (isspace c = true -> c = space) -> Step 0 ctx (add_char ctx c).
Proof.
  intros Hc; unfold add_char.
  assert (Hn : c <> newline).
  { intros ->; specialize (Hc isspace_newline); discriminate. }
  destruct (isspace c) eqn:E.
  - destruct (last_char_is_whitespace ctx) eqn:F; simpl.
    + apply Step_refl.
    + rewrite <- (count_newline_other c Hn), <- E.
      apply Step_append_char; auto.
  - rewrite <- (count_newline_other c Hn), <- E.
    apply Step_append_char; [auto | congruence].
Qed.

Lemma Step_fold_add_char (l : str) (ctx : Context) :
  Forall (fun c => isspace c = true -> c = space) l ->
  Step 0 ctx (fold_left add_char l ctx).
Proof.
  intros H; revert ctx; induction H as [|c l Hc _ IH]; intros ctx; simpl.
  - apply Step_refl.
  - eapply Step_0_trans; [apply Step_add_char, Hc | apply IH].
Qed.

Lemma Step_add_text_to_context (t : option str) (ctx : Context) :
  Step 0 ctx (add_text_to_context t ctx).
Proof.
  unfold add_text_to_context; destruct (negb (truthy t)).
  - apply Step_refl.
  - apply Step_fold_add_char, re_sub_1_spaces.
Qed.

Lemma Step_add_if (t : option str) (ctx : Context) :
  Step 0 ctx (add_if t ctx).
Proof.
  unfold add_if; destruct (truthy t);
    [apply Step_add_text_to_context | apply Step_refl].
Qed.

Lemma Step_offset_le (n : nat) (a b : Context) :
  Step n a b -> global_offset a <= global_offset b.
Proof. intros (d & _ & _ & O & _); lia. Qed.

Lemma Step_then_annotation (n : nat) (ctx0 ctx : Context) (a : Annotation) :
  Step n ctx0 ctx ->
  in_range (global_offset ctx0) (global_offset ctx) a ->
  Step n ctx0 (append_annotation a ctx).
Proof.
  intros (d & new & T & O & A & R & C & W) Ha.
  exists d, (new ++ [a]); simpl.
  rewrite A, app_assoc; conjuncts; auto.
  apply Forall_app; split; [exact R | constructor; [exact Ha | constructor]].
Qed.

Lemma Step_set_page (p : str) (ctx : Context) : Step 0 ctx (set_page p ctx).
Proof.
  exists [], []; simpl; rewrite !app_nil_r, Z.add_0_r; conjuncts; auto.
Qed.

Lemma Step_page_break (e : Element) (ctx : Context) :
  Step 0 ctx (page_break e ctx).
Proof.
  unfold page_break; destruct (truthy _);
    [apply Step_set_page | apply Step_refl].
Qed.

Lemma Step_line_break (ctx : Context) : Step 1 ctx (line_break ctx).
Proof.
  change 1%nat with (count_occ N.eq_dec [newline] newline).
  apply (Step_append_char newline); auto.
Qed.

Lemma Step_annotate (n : nat) (e : Element) (ctx0 ctx : Context) :
  Step n ctx0 ctx -> Step n ctx0 (annotate e (global_offset ctx0) ctx).
Proof.
  intros H; unfold annotate.
  destruct (negb _); [|exact H].
  destruct (attrib e); [exact H|].
  apply Step_then_annotation; [exact H|].
  intros _; simpl; pose proof (Step_offset_le _ _ _ H); lia.
Qed.

Lemma Step_choice (e : Element) (ctx : Context) : Step 0 ctx (choice e ctx).
Proof.
  unfold choice.
  set (chosen := if truthy _ then _ else _).
  pose proof (Step_add_if chosen ctx) as H.
  apply Step_then_annotation; [exact H|].
  intros _; simpl; pose proof (Step_offset_le _ _ _ H); lia.
Qed.

Lemma Step_subst (e : Element) (ctx : Context) : Step 0 ctx (subst e ctx).
Proof.
  unfold subst.
  set (added := text_of_found (find_descendant "add" e)).
  pose proof (Step_add_if added ctx) as H.
  apply Step_then_annotation; [exact H|].
  intros _; simpl; pose proof (Step_offset_le _ _ _ H); lia.
Qed.

Lemma Step_note (e : Element) (ctx : Context) : Step 0 ctx (note e ctx).
Proof.
  unfold note.
  set (ctx1 := if negb _ then _ else _).
  assert (H : Step 0 ctx ctx1).
  { subst ctx1; destruct (last_char_is_whitespace ctx) eqn:F; simpl.
    - apply Step_refl.
    - change 0%nat with (count_occ N.eq_dec [space] newline).
      apply (Step_append_char space); auto. }
  apply Step_then_annotation; [exact H|].
  intros Hn; exfalso; apply Hn; reflexivity.
Qed.

Lemma process_element_eq (e : Element) (ctx : Context) :
  process_element e ctx
  = if is_name e "pb" then
      annotate e (global_offset ctx) (page_break e ctx)
    else if is_name e "lb" then
      annotate e (global_offset ctx) (line_break ctx)
    else if is_name e "choice" then choice e ctx
    else if is_name e "note" then note e ctx
    else if is_name e "subst" then subst e ctx
    else
      annotate e (global_offset ctx)
        (fold_left
           (fun c child => add_if (tail child) (process_element child c))
           (children e) (add_if (text e) ctx)).
Proof. destruct e; reflexivity. Qed.

Lemma lb_count_eq (e : Element) :
  lb_count e
  = if is_name e "pb" then 0%nat
    else if is_name e "lb" then 1%nat
    else if is_name e "choice" then 0%nat
    else if is_name e "note" then 0%nat
    else if is_name e "subst" then 0%nat
    else list_sum (map lb_count (children e)).
Proof. destruct e; reflexivity. Qed.

Lemma Step_children (cs : list Element) :
  Forall (fun e => forall ctx, Step (lb_count e) ctx (process_element e ctx))
         cs ->
  forall ctx,
    Step (list_sum (map lb_count cs)) ctx
         (fold_left
            (fun c child => add_if (tail child) (process_element child c))
            cs ctx).
Proof.
  induction 1 as [|child cs Hc _ IH]; intros ctx; simpl.
  - apply Step_refl.
  - eapply Step_trans; [|apply IH].
    rewrite <- (Nat.add_0_r (lb_count child)).
    eapply Step_trans; [apply Hc | apply Step_add_if].
Qed.

(** Every node takes the context one [Step] further, with as many newlines
    as the walker meets line breaks under it. *)
Lemma Step_process_element (e : Element) :
  forall ctx, Step (lb_count e) ctx (process_element e ctx).
Proof.
  induction e as [t a tx tl cs IH] using Element_ind; intros ctx.
  rewrite process_element_eq, lb_count_eq.
  destruct (is_name _ "pb"); [apply Step_annotate, Step_page_break|].
  destruct (is_name _ "lb"); [apply Step_annotate, Step_line_break|].
  destruct (is_name _ "choice"); [apply Step_choice|].
  destruct (is_name _ "note"); [apply Step_note|].
  destruct (is_name _ "subst"); [apply Step_subst|].
  apply Step_annotate.
  change (list_sum (map lb_count (children (mkElement t a tx tl cs))))
    with (0 + list_sum (map lb_count cs))%nat.
  eapply Step_trans; [apply Step_add_if | apply Step_children, IH].
Qed.

Lemma WsInv_initial : WsInv initial_context.
Proof.
  unfold WsInv; simpl; conjuncts; [reflexivity | | constructor].
  intros [|? [|? ?]] ? ? ? E; discriminate.
Qed.

Lemma Step_extract (root : Element) :
  Step (walked_line_breaks root) initial_context (extract_context root).
Proof.
  unfold extract_context, walked_line_breaks.
  destruct (find_descendant "body" root) as [body|];
    [apply Step_process_element | apply Step_refl].
Qed.

(** ** Appending a canonical text *)

Lemma opt_str_eqb_eq (a b : option str) : opt_str_eqb a b = true <-> a = b.
Proof.
  destruct a, b; simpl; try (split; discriminate); [|tauto].
  rewrite str_eqb_eq; split; [intros ->; reflexivity | intros H; now injection H].
Qed.

Lemma re_sub_2_fixed (s : str) :
  no_adj s = true ->
  re_sub_ws_from 2 [] s = s
  /\ (forall x, head_ws s = false -> re_sub_ws_from 2 [x] s = x :: s).
Proof.
  induction s as [|c s IH]; intros H; [split; reflexivity|].
  simpl in H; apply andb_true_iff in H as [Hc Hs].
  destruct (IH Hs) as [IH1 IH2]; simpl.
  destruct (isspace c) eqn:E; simpl in *.
  - split; [|discriminate].
    apply negb_true_iff in Hc; rewrite (IH2 c Hc); reflexivity.
  - rewrite IH1; split; reflexivity.
Qed.

Lemma re_sub_1_no_adj (s : str) :
  no_adj s = true -> re_sub_ws 1 s = map to_space s.
Proof.
  intros H; unfold re_sub_ws.
  rewrite <- (re_sub_2_to_space s []) by constructor.
  now rewrite (proj1 (re_sub_2_fixed s H)).
Qed.

Lemma head_ws_map_to_space (s : str) : head_ws (map to_space s) = head_ws s.
Proof. destruct s; simpl; [reflexivity | apply isspace_to_space]. Qed.

Lemma no_adj_map_to_space (s : str) : no_adj (map to_space s) = no_adj s.
Proof.
  induction s as [|c s IH]; simpl; [reflexivity|].
  now rewrite isspace_to_space, head_ws_map_to_space, IH.
Qed.

Lemma add_char_frame (ctx : Context) (c : char) : same_frame ctx (add_char ctx c).
Proof.
  unfold add_char, same_frame.
  destruct (isspace c), (last_char_is_whitespace ctx); simpl; auto.
Qed.

Lemma fold_add_char_frame (l : str) (ctx : Context) :
  same_frame ctx (fold_left add_char l ctx).
Proof.
  revert ctx; induction l as [|c l IH]; intros ctx; simpl.
  - unfold same_frame; auto.
  - destruct (IH (add_char ctx c)) as (A & P & C & X).
    destruct (add_char_frame ctx c) as (A' & P' & C' & X').
    unfold same_frame; rewrite A, P, C, X; auto.
Qed.

Lemma add_text_to_context_frame (t : option str) (ctx : Context) :
  same_frame ctx (add_text_to_context t ctx).
Proof.
  unfold add_text_to_context; destruct (negb (truthy t)).
  - unfold same_frame; auto.
  - apply fold_add_char_frame.
Qed.

Lemma add_if_eq (t : option str) (ctx : Context) :
  add_if t ctx = add_text_to_context t ctx.
Proof.
  unfold add_if, add_text_to_context; destruct (truthy t); reflexivity.
Qed.

(** Characters with no doubled whitespace, and no leading one after a
    whitespace, all reach the buffer. *)
Lemma fold_add_char_clean (l : str) (ctx : Context) :
  no_adj l = true ->
  (head_ws l = true -> last_char_is_whitespace ctx = false) ->
  text_content (fold_left add_char l ctx) = text_content ctx ++ l
  /\ global_offset (fold_left add_char l ctx)
     = global_offset ctx + Z.of_nat (List.length l).
Proof.
  revert ctx; induction l as [|c l IH]; intros ctx Hl Hh.
  - simpl; rewrite app_nil_r; split; [reflexivity | lia].
  - simpl in Hl; apply andb_true_iff in Hl as [Hc Hl].
    cbn [fold_left]; unfold add_char at 2 4.
    destruct (isspace c) eqn:E.
    + simpl in Hh; rewrite (Hh E); simpl in Hc; cbn [negb].
      apply negb_true_iff in Hc.
      destruct (IH (append_char c true ctx) Hl) as [T O];
        [congruence|].
      rewrite T, O; cbn [append_char text_content global_offset length].
      rewrite <- app_assoc; split; [reflexivity | lia].
    + destruct (IH (append_char c false ctx) Hl) as [T O];
        [reflexivity|].
      rewrite T, O; cbn [append_char text_content global_offset length].
      rewrite <- app_assoc; split; [reflexivity | lia].
Qed.

Lemma add_canonical (s : str) (ctx : Context) :
  canonical s ->
  text_content (add_text_to_context (Some s) ctx)
  = text_content ctx ++ map to_space s
  /\ global_offset (add_text_to_context (Some s) ctx)
     = global_offset ctx + Z.of_nat (List.length s).
Proof.
  intros [Hh Hn]; unfold add_text_to_context.
  destruct s as [|c s]; cbn [truthy negb or_empty].
  - simpl; rewrite app_nil_r; split; [reflexivity | lia].
  - rewrite (re_sub_1_no_adj _ Hn).
    rewrite <- (length_map to_space (c :: s)).
    apply fold_add_char_clean.
    + now rewrite no_adj_map_to_space.
    + rewrite head_ws_map_to_space, Hh; discriminate.
Qed.

Lemma get_element_text_canonical (e : Element) : canonical (get_element_text e).
Proof.
  split; [apply get_element_text_head | apply get_element_text_no_adj].
Qed.

Lemma text_of_found_canonical (o : option Element) :
  canonical (or_empty (text_of_found o)).
Proof.
  destruct o; simpl; [apply get_element_text_canonical | split; reflexivity].
Qed.

Lemma add_found (o : option str) (ctx : Context) :
  canonical (or_empty o) ->
  text_content (add_text_to_context o ctx)
  = text_content ctx ++ map to_space (or_empty o)
  /\ global_offset (add_text_to_context o ctx)
     = global_offset ctx + Z.of_nat (List.length (or_empty o)).
Proof.
  destruct o as [s|]; [apply add_canonical|].
  intros _; unfold add_text_to_context; simpl.
  rewrite app_nil_r; split; [reflexivity | lia].
Qed.

(** ** A whole document *)

Lemma extract_facts (root : Element) :
  global_offset (extract_context root)
  = Z.of_nat (List.length (extract_text root))
  /\ Forall (in_range 0 (Z.of_nat (List.length (extract_text root))))
            (extract_annotations root)
  /\ count_occ N.eq_dec (extract_text root) newline = walked_line_breaks root
  /\ WsInv (extract_context root).
Proof.
  destruct (Step_extract root) as (d & new & T & O & A & R & C & W).
  unfold extract_text, extract_annotations.
  simpl in T, O, A, R; rewrite T, A in *; rewrite O in R.
  conjuncts; auto using WsInv_initial.
Qed.

Lemma adj_ok_nth (b : str) (i : nat) (c1 c2 : char) :
  adj_ok b ->
  nth_error b i = Some c1 -> nth_error b (S i) = Some c2 ->
  isspace c1 = true -> isspace c2 = true -> c2 = newline.
Proof.
  intros Hb H1 H2.
  apply nth_error_split in H1 as (l1 & l2 & -> & <-).
  rewrite nth_error_app2 in H2 by lia.
  replace (S (List.length l1) - List.length l1)%nat with 1%nat in H2 by lia.
  destruct l2 as [|x l2]; simpl in H2; [discriminate|].
  injection H2 as ->; eapply Hb; reflexivity.
Qed.

Lemma fold_add_char_delta (P : char -> Prop) (l : str) (ctx : Context) :
  Forall P l ->
  exists delta,
    text_content (fold_left add_char l ctx) = text_content ctx ++ delta
    /\ global_offset (fold_left add_char l ctx)
       = global_offset ctx + Z.of_nat (List.length delta)
    /\ Forall P delta.
Proof.
  intros H; revert ctx; induction H as [|c l Hc _ IH]; intros ctx; simpl.
  - exists []; rewrite app_nil_r; simpl; conjuncts; auto; lia.
  - destruct (IH (add_char ctx c)) as (d & T & O & F).
    unfold add_char in T, O |- *.
    destruct (isspace c); [destruct (last_char_is_whitespace ctx)|];
      simpl in *;
      try (exists d; conjuncts; assumption);
      (exists (c :: d); rewrite T, O, <- app_assoc; simpl length;
       conjuncts; [reflexivity | lia | constructor; assumption]).
Qed.

Lemma add_text_to_context_delta (t : option str) (ctx : Context) :
  exists delta,
    text_content (add_text_to_context t ctx) = text_content ctx ++ delta
    /\ global_offset (add_text_to_context t ctx)
       = global_offset ctx + Z.of_nat (List.length delta)
    /\ Forall (fun c => isspace c = true -> c = space) delta.
Proof.
  unfold add_text_to_context; destruct (negb (truthy t)).
  - exists []; rewrite app_nil_r; simpl; conjuncts; auto; lia.
  - apply fold_add_char_delta, re_sub_1_spaces.
Qed.

(** C1. Every annotation of an extracted document other than a note has
    [0 <= start_offset <= end_offset <= len(text)] for the document's final
    text; and each step of the traversal, be it one node or one appended
    text, only appends to the buffer and advances the position by exactly
    the number of characters it appends, so that the position never
    decreases and is the number of characters appended so far. *)
Theorem offsets_within_text :
  (forall root a,
      In a (extract_annotations root) -> ann_type a <> py "note" ->
      0 <= start_offset a /\ start_offset a <= end_offset a
      /\ end_offset a <= Z.of_nat (List.length (extract_text root)))
  /\ (forall root,
        global_offset (extract_context root)
        = Z.of_nat (List.length (extract_text root)))
  /\ (forall e ctx, exists delta,
        text_content (process_element e ctx) = text_content ctx ++ delta
        /\ process_element_result e ctx
           = global_offset ctx + Z.of_nat (List.length delta))
  /\ (forall t ctx, exists delta,
        text_content (add_text_to_context t ctx) = text_content ctx ++ delta
        /\ global_offset (add_text_to_context t ctx)
           = global_offset ctx + Z.of_nat (List.length delta)).
Proof.
  conjuncts.
  - intros root a Ha Hn.
    destruct (extract_facts root) as (_ & R & _).
    rewrite Forall_forall in R; exact (R a Ha Hn).
  - intros root; apply extract_facts.
  - intros e ctx.
    destruct (Step_process_element e ctx) as (d & _ & T & O & _).
    exists d; split; assumption.
  - intros t ctx.
    destruct (add_text_to_context_delta t ctx) as (d & T & O & _).
    exists d; split; assumption.
Qed.

Lemma offsets_within_text_witness :
  0 <= 10 /\ 10 <= 17
  /\ 17 <= Z.of_nat (List.length (extract_text (document body_choice))).
Proof.
  apply (proj1 offsets_within_text (document body_choice)
           (mkAnnotation (py "choice") None (lit "January") (lit "Jan.")
                         10 17 None None)).
  - vm_compute; left; reflexivity.
  - vm_compute; discriminate.
Defined.

(** C2. In the text of an extracted document, of two whitespace characters
    side by side the second is always a newline, and the text has exactly as
    many newlines as the walker met line breaks: a doubled whitespace only
    occurs where a line break forced its newline after another whitespace
    character. A document in which the walker meets no line break has no
    two whitespace characters side by side. *)
Theorem whitespace_law (root : Element) :
  (forall i c1 c2,
      nth_error (extract_text root) i = Some c1 ->
      nth_error (extract_text root) (S i) = Some c2 ->
      isspace c1 = true -> isspace c2 = true -> c2 = newline)
  /\ count_occ N.eq_dec (extract_text root) newline = walked_line_breaks root
  /\ (walked_line_breaks root = 0%nat ->
      forall i c1 c2,
        nth_error (extract_text root) i = Some c1 ->
        nth_error (extract_text root) (S i) = Some c2 ->
        isspace c1 = true -> isspace c2 = false).
Proof.
  destruct (extract_facts root) as (_ & _ & C & _ & A & _).
  assert (H : forall i c1 c2,
             nth_error (extract_text root) i = Some c1 ->
             nth_error (extract_text root) (S i) = Some c2 ->
             isspace c1 = true -> isspace c2 = true -> c2 = newline).
  { intros i c1 c2; apply adj_ok_nth; exact A. }
  conjuncts; [exact H | exact C |].
  intros Z0 i c1 c2 H1 H2 W1.
  destruct (isspace c2) eqn:W2; [exfalso | reflexivity].
  rewrite (H i c1 c2 H1 H2 W1 W2) in H2.
  apply nth_error_In in H2.
  apply (count_occ_In N.eq_dec) in H2; lia.
Qed.

Lemma whitespace_law_witness :
  extract_text (document body_spaced_break)
  = py "foo " ++ [newline] ++ py "bar"
  /\ newline = newline
  /\ isspace 110%N = false.
Proof.
  conjuncts.
  - reflexivity.
  - apply (proj1 (whitespace_law (document body_spaced_break))
             3%nat space newline); reflexivity.
  - apply (proj2 (proj2 (whitespace_law (document body_note)))
             eq_refl 4%nat space 110%N); reflexivity.
Defined.

(** C10. Every whitespace character in the text of an extracted document is
    a space or a newline; the text has exactly as many newlines as the
    walker met line breaks, so each newline is one that line-break handling
    emitted; and what the normal append path adds to the buffer has no
    whitespace character other than the space. *)
Theorem output_whitespace :
  (forall root c,
      In c (extract_text root) -> isspace c = true ->
      c = space \/ c = newline)
  /\ (forall root,
        count_occ N.eq_dec (extract_text root) newline
        = walked_line_breaks root)
  /\ (forall t ctx, exists delta,
        text_content (add_text_to_context t ctx) = text_content ctx ++ delta
        /\ Forall (fun c => isspace c = true -> c = space) delta).
Proof.
  conjuncts.
  - intros root c Hc.
    destruct (extract_facts root) as (_ & _ & _ & _ & _ & W).
    unfold ws_ok in W; rewrite Forall_forall in W; exact (W c Hc).
  - intros root; apply extract_facts.
  - intros t ctx.
    destruct (add_text_to_context_delta t ctx) as (d & T & _ & F).
    exists d; split; assumption.
Qed.

Lemma output_whitespace_witness :
  newline = space \/ newline = newline.
Proof.
  apply (proj1 output_whitespace (document body_line_break) newline).
  - vm_compute; do 3 right; left; reflexivity.
  - reflexivity.
Defined.

(** ** The special forms *)

Lemma process_lb (e : Element) (ctx : Context) :
  element_name e = py "lb" -> process_element e ctx = line_break ctx.
Proof.
  intros H; rewrite process_element_eq; unfold is_name, annotate.
  rewrite !H; decide_names; reflexivity.
Qed.

Lemma process_choice (e : Element) (ctx : Context) :
  element_name e = py "choice" -> process_element e ctx = choice e ctx.
Proof.
  intros H; rewrite process_element_eq; unfold is_name, annotate.
  rewrite !H; decide_names; reflexivity.
Qed.

Lemma process_note (e : Element) (ctx : Context) :
  element_name e = py "note" -> process_element e ctx = note e ctx.
Proof.
  intros H; rewrite process_element_eq; unfold is_name, annotate.
  rewrite !H; decide_names; reflexivity.
Qed.

Lemma process_subst (e : Element) (ctx : Context) :
  element_name e = py "subst" -> process_element e ctx = subst e ctx.
Proof.
  intros H; rewrite process_element_eq; unfold is_name, annotate.
  rewrite !H; decide_names; reflexivity.
Qed.

(** C3. A node with the line-break tag appends exactly one newline whatever
    the whitespace flag says, advances the position by exactly 1 and sets
    the flag, leaving annotations and pages as they are; and [foo<lb/>bar]
    gives the text [foo], newline, [bar], with nothing else. *)
Theorem line_break_appends_newline :
  (forall e ctx,
      element_name e = py "lb" ->
      process_element e ctx
      = mkContext (text_content ctx ++ [newline]) (annotations ctx)
                  (pages ctx) (current_page ctx) (global_offset ctx + 1)
                  (ctx_alternative_text ctx) true)
  /\ extract_text (document body_line_break)
     = py "foo" ++ [newline] ++ py "bar"
  /\ extract_annotations (document body_line_break) = [].
Proof.
  conjuncts; [|reflexivity|reflexivity].
  intros e ctx H; rewrite (process_lb e ctx H); reflexivity.
Qed.

Lemma line_break_appends_newline_witness :
  text_content
    (process_element (node "lb" [] None None [])
       (mkContext (py "foo ") [] [] None 4 None true))
  = py "foo " ++ [newline].
Proof.
  rewrite (proj1 line_break_appends_newline
             (node "lb" [] None None [])
             (mkContext (py "foo ") [] [] None 4 None true) eq_refl).
  reflexivity.
Defined.

Lemma choice_alternative (abbr_text expan_text : option str) :
  (if opt_str_eqb (if truthy expan_text then expan_text else abbr_text)
                  expan_text
   then abbr_text else expan_text)
  = if truthy expan_text then abbr_text else expan_text.
Proof.
  destruct (truthy expan_text).
  - now rewrite (proj2 (opt_str_eqb_eq expan_text expan_text) eq_refl).
  - destruct (opt_str_eqb abbr_text expan_text) eqn:E; [|reflexivity].
    now apply opt_str_eqb_eq in E.
Qed.

Lemma process_choice_eq (e : Element) (ctx : Context) :
  element_name e = py "choice" ->
  let abbr_text := text_of_found (find_descendant "abbr" e) in
  let expan_text := text_of_found (find_descendant "expan" e) in
  let preferred := if truthy expan_text then expan_text else abbr_text in
  let other := if truthy expan_text then abbr_text else expan_text in
  let ctx1 := add_text_to_context preferred ctx in
  process_element e ctx
  = append_annotation
      (mkAnnotation (py "choice") None preferred other
                    (global_offset ctx) (global_offset ctx1)
                    (current_page ctx) None) ctx1.
Proof.
  intros H abbr_text expan_text preferred other ctx1.
  destruct (add_text_to_context_frame preferred ctx) as (_ & _ & C & _).
  rewrite (process_choice e ctx H); unfold choice.
  fold abbr_text expan_text.
  rewrite choice_alternative, add_if_eq; fold preferred other ctx1.
  unfold choice_annotation; subst ctx1; rewrite C; reflexivity.
Qed.

Lemma process_subst_eq (e : Element) (ctx : Context) :
  element_name e = py "subst" ->
  let del_text := text_of_found (find_descendant "del" e) in
  let add_text := text_of_found (find_descendant "add" e) in
  let ctx1 := add_text_to_context add_text ctx in
  process_element e ctx
  = append_annotation
      (mkAnnotation (py "substitution") None add_text del_text
                    (global_offset ctx) (global_offset ctx1)
                    (current_page ctx) (Some (del_text, add_text))) ctx1.
Proof.
  intros H del_text add_text ctx1.
  destruct (add_text_to_context_frame add_text ctx) as (_ & _ & C & _).
  rewrite (process_subst e ctx H); unfold subst.
  fold del_text add_text; rewrite add_if_eq; fold ctx1.
  unfold subst_annotation; subst ctx1; rewrite C; reflexivity.
Qed.

(** C4. A choice node appends its preferred text, the expansion's canonical
    text when that is not empty and the abbreviation's otherwise, through
    [add_text_to_context] and nothing else: the buffer grows by that text
    (its whitespace characters as spaces), the position by its length, and
    one annotation is recorded, of type choice, from the position at entry
    to the position after the append, with the preferred text, the other
    side as alternative and the current page. Nothing under the node is
    walked: no other text and no other annotation is added. On
    [Treaty of <choice>Jan./January</choice> 1291] the text is
    [Treaty of January 1291] and the one annotation has text [January] and
    alternative [Jan.] at offsets 10 to 17. *)
Theorem choice_appends_preferred :
  (forall e ctx,
      element_name e = py "choice" ->
      let abbr_text := text_of_found (find_descendant "abbr" e) in
      let expan_text := text_of_found (find_descendant "expan" e) in
      let preferred := if truthy expan_text then expan_text else abbr_text in
      let other := if truthy expan_text then abbr_text else expan_text in
      let ctx1 := add_text_to_context preferred ctx in
      let stop :=
        global_offset ctx + Z.of_nat (List.length (or_empty preferred)) in
      process_element e ctx
      = append_annotation
          (mkAnnotation (py "choice") None preferred other
                        (global_offset ctx) (global_offset ctx1)
                        (current_page ctx) None) ctx1
      /\ text_content (process_element e ctx)
         = text_content ctx ++ map to_space (or_empty preferred)
      /\ process_element_result e ctx = stop
      /\ annotations (process_element e ctx)
         = annotations ctx
           ++ [mkAnnotation (py "choice") None preferred other
                            (global_offset ctx) stop (current_page ctx) None])
  /\ extract_text (document body_choice) = py "Treaty of January 1291"
  /\ extract_annotations (document body_choice)
     = [mkAnnotation (py "choice") None (lit "January") (lit "Jan.")
                     10 17 None None].
Proof.
  conjuncts; [|reflexivity|reflexivity].
  intros e ctx H abbr_text expan_text preferred other ctx1 stop.
  assert (Hc : canonical (or_empty preferred)).
  { subst preferred; destruct (truthy expan_text);
      apply text_of_found_canonical. }
  destruct (add_found preferred ctx Hc) as [T O].
  destruct (add_text_to_context_frame preferred ctx) as (A & _ & C & _).
  pose proof (process_choice_eq e ctx H) as E; cbv zeta in E.
  fold abbr_text expan_text preferred other ctx1 in E.
  unfold process_element_result; rewrite E; subst ctx1 stop; simpl.
  rewrite T, O, A; conjuncts; reflexivity.
Qed.

Lemma choice_appends_preferred_witness :
  text_content
    (process_element choice_january
       (mkContext (py "Treaty of ") [] [] None 10 None true))
  = py "Treaty of January".
Proof.
  rewrite (proj1 (proj2 (proj1 choice_appends_preferred choice_january
             (mkContext (py "Treaty of ") [] [] None 10 None true) eq_refl))).
  reflexivity.
Defined.










(** C6. A note node appends one space exactly when the whitespace flag is
    not set, and nothing of the note: the position advances by that space
    at most. It records one annotation of type note that starts at the
    position reached and ends the length of the note's canonical text
    further, though the buffer holds no such characters. On
    [word<note>comment</note>next] the text is [word next] and the one
    annotation carries [comment]. *)
Theorem note_is_kept_out_of_text :
  (forall e ctx,
      element_name e = py "note" ->
      let sep := if last_char_is_whitespace ctx then [] else [space] in
      let start := global_offset ctx + Z.of_nat (List.length sep) in
      let note_text := get_element_text e in
      process_element e ctx
      = mkContext (text_content ctx ++ sep)
          (annotations ctx
           ++ [mkAnnotation (py "note") None (Some note_text) None start
                            (start + Z.of_nat (List.length note_text))
                            (current_page ctx) None])
          (pages ctx) (current_page ctx) start (ctx_alternative_text ctx)
          true)
  /\ extract_text (document body_note) = py "word next"
  /\ extract_annotations (document body_note)
     = [mkAnnotation (py "note") None (lit "comment") None 5 12 None None].
Proof.
  conjuncts; [|reflexivity|reflexivity].
  intros e ctx H sep start note_text.
  rewrite (process_note e ctx H); unfold note, note_annotation.
  subst sep start note_text.
  destruct ctx as [b an pg cp off alt []]; simpl;
    rewrite ?app_nil_r, ?Z.add_0_r; reflexivity.
Qed.

Lemma note_is_kept_out_of_text_witness :
  text_content
    (process_element note_comment
       (mkContext (py "word") [] [] None 4 None false))
  = py "word ".
Proof.
  rewrite (proj1 note_is_kept_out_of_text note_comment
             (mkContext (py "word") [] [] None 4 None false) eq_refl).
  reflexivity.
Defined.

(** ** Canonical text: what is collapsed and what is kept *)

Lemma re_sub_all_ws (m : nat) (run acc : str) :
  Forall (fun c => isspace c = true) run ->
  re_sub_ws_from m acc run = flush m (acc ++ run).
Proof.
  intros H; revert acc; induction H as [|c run Hc _ IH]; intros acc; simpl.
  - now rewrite app_nil_r.
  - rewrite Hc, IH, <- app_assoc; reflexivity.
Qed.

Lemma re_sub_2_long_run (a : str) (x : char) (run : str) (y : char) (b : str) :
  isspace x = false -> isspace y = false ->
  Forall (fun c => isspace c = true) run -> (2 <= List.length run)%nat ->
  re_sub_ws 2 (a ++ x :: run ++ y :: b)
  = re_sub_ws 2 a ++ x :: space :: y :: re_sub_ws 2 b.
Proof.
  intros Hx Hy Hrun Hlen; unfold re_sub_ws.
  rewrite (re_sub_app_clean 2 a x _ [] Hx).
  rewrite (re_sub_app_clean 2 run y b [] Hy).
  rewrite (re_sub_all_ws 2 run [] Hrun).
  change ([] ++ run) with run; unfold flush.
  apply Nat.leb_le in Hlen; rewrite Hlen; reflexivity.
Qed.

Lemma re_sub_2_lone (a : str) (x w y : char) (b : str) :
  isspace x = false -> isspace y = false ->
  re_sub_ws 2 (a ++ x :: w :: y :: b)
  = re_sub_ws 2 a ++ x :: w :: y :: re_sub_ws 2 b.
Proof.
  intros Hx Hy; unfold re_sub_ws.
  rewrite (re_sub_app_clean 2 a x _ [] Hx); simpl.
  destruct (isspace w); rewrite Hy; reflexivity.
Qed.

Lemma lstrip_clean (s : str) : head_ws s = false -> lstrip s = s.
Proof. destruct s as [|c s]; simpl; [reflexivity | now intros ->]. Qed.

Lemma strip_clean (s : str) :
  head_ws s = false -> head_ws (rev s) = false -> strip s = s.
Proof.
  intros H1 H2; unfold strip.
  now rewrite (lstrip_clean s H1), (lstrip_clean _ H2), rev_involutive.
Qed.

Lemma remove_extra_spaces_fixed (s : str) :
  head_ws s = false -> head_ws (rev s) = false -> no_adj s = true ->
  remove_extra_spaces s = s.
Proof.
  intros H1 H2 H3; unfold remove_extra_spaces, re_sub_ws.
  rewrite (strip_clean s H1 H2); apply (re_sub_2_fixed s H3).
Qed.

Lemma annotate_position (e : Element) (start : Z) (ctx : Context) :
  text_content (annotate e start ctx) = text_content ctx
  /\ global_offset (annotate e start ctx) = global_offset ctx
  /\ last_char_is_whitespace (annotate e start ctx)
     = last_char_is_whitespace ctx.
Proof.
  unfold annotate; destruct (negb _); [|auto].
  destruct (attrib e); simpl; auto.
Qed.

(** C7, as the specification words it, fails: on [<p>a(newline)b</p>] the
    extractor returns the three characters as they are, the newline
    included, where the specification's canonical text has a space. *)
Lemma lone_newline_is_kept :
  get_element_text p_lone_newline = [97; 10; 98]%N
  /\ spec_canonical_text p_lone_newline = [97; 32; 98]%N
  /\ get_element_text p_lone_newline <> spec_canonical_text p_lone_newline.
Proof. conjuncts; [reflexivity | reflexivity | discriminate]. Qed.

(** C7, amended. The extractor returns the concatenation of the node's
    direct text and, for each child, its recursively extracted text (none
    for a deletion) and its tail, with leading and trailing whitespace
    trimmed and every run of two or more whitespace characters replaced by
    one space; a whitespace character that stands alone is kept as it is.
    The result has no whitespace at either end and no two whitespace
    characters side by side, it is left as it is by a second normalization,
    and with its whitespace characters read as spaces it is the canonical
    text of the specification. Where the walker calls the extractor, for
    the annotation of a node, neither the buffer nor the position nor the
    whitespace flag changes. *)
Theorem canonical_text_extraction :
  (forall e,
      get_element_text e = re_sub_ws 2 (strip (text_parts e))
      /\ head_ws (get_element_text e) = false
      /\ head_ws (rev (get_element_text e)) = false
      /\ no_adj (get_element_text e) = true
      /\ remove_extra_spaces (get_element_text e) = get_element_text e
      /\ map to_space (get_element_text e) = spec_canonical_text e)
  /\ (forall a x run y b,
        isspace x = false -> isspace y = false ->
        Forall (fun c => isspace c = true) run ->
        (2 <= List.length run)%nat ->
        re_sub_ws 2 (a ++ x :: run ++ y :: b)
        = re_sub_ws 2 a ++ x :: space :: y :: re_sub_ws 2 b)
  /\ (forall a x w y b,
        isspace x = false -> isspace y = false ->
        re_sub_ws 2 (a ++ x :: w :: y :: b)
        = re_sub_ws 2 a ++ x :: w :: y :: re_sub_ws 2 b)
  /\ (forall e start ctx,
        text_content (annotate e start ctx) = text_content ctx
        /\ global_offset (annotate e start ctx) = global_offset ctx
        /\ last_char_is_whitespace (annotate e start ctx)
           = last_char_is_whitespace ctx).
Proof.
  conjuncts.
  - intros e.
    pose proof (get_element_text_head e) as H1.
    pose proof (get_element_text_no_adj e) as H3.
    assert (H2 : head_ws (rev (get_element_text e)) = false).
    { rewrite get_element_text_eq; apply remove_extra_spaces_tail. }
    conjuncts; auto.
    + apply get_element_text_eq.
    + now apply remove_extra_spaces_fixed.
    + apply get_element_text_to_space.
  - exact re_sub_2_long_run.
  - exact re_sub_2_lone.
  - exact annotate_position.
Qed.

Lemma canonical_text_extraction_witness :
  re_sub_ws 2 (py "a" ++ 98%N :: [32; 10; 9]%N ++ 99%N :: py "d")
  = py "ab cd"
  /\ re_sub_ws 2 (py "a" ++ 98%N :: 10%N :: 99%N :: py "d")
     = py "ab" ++ [newline] ++ py "cd".
Proof.
  split.
  - etransitivity.
    + apply (proj1 (proj2 canonical_text_extraction)
               (py "a") 98%N [32; 10; 9]%N 99%N (py "d")
               eq_refl eq_refl).
      * repeat constructor.
      * simpl; lia.
    + reflexivity.
  - etransitivity.
    + apply (proj1 (proj2 (proj2 canonical_text_extraction))
               (py "a") 98%N 10%N 99%N (py "d") eq_refl eq_refl).
    + reflexivity.
Defined.

(** ** The annotation check of the export *)

(** C8. The check of [convert_to_lcp] does not do what the specification
    says. On [x<lb/><persName>a<lb/>b</persName>cd] the slice of the
    annotation and its stored text agree once newlines are removed, and the
    specification keeps the annotation; the code removes the newlines of the
    whole text before it slices at the old offsets, compares [bcd] with [ab]
    and writes no row. On [Hans Fritz] both names match their slices; the
    code writes the row of the first, assigns its text to the variable
    [text], and drops the second. *)
Theorem reconciliation_loses_annotations :
  (extract_text (document body_name_across_break)
   = py "x" ++ [newline] ++ py "a" ++ [newline] ++ py "bcd"
   /\ extract_annotations (document body_name_across_break)
      = [mkAnnotation (py "persName") (Some [(py "ref", py "a")])
                      (lit "ab") None 2 5 None None]
   /\ spec_kept (extract_text (document body_name_across_break))
                (extract_annotations (document body_name_across_break))
      = extract_annotations (document body_name_across_break)
   /\ slice (remove_newlines (extract_text (document body_name_across_break)))
            2 5 = py "bcd"
   /\ kept_rows (extract_text (document body_name_across_break))
                (extract_annotations (document body_name_across_break))
      = [])
  /\ (extract_text (document body_two_names) = py "Hans Fritz"
      /\ slice (extract_text (document body_two_names)) 5 10 = py "Fritz"
      /\ spec_kept (extract_text (document body_two_names))
                   (extract_annotations (document body_two_names))
         = extract_annotations (document body_two_names)
      /\ List.length (extract_annotations (document body_two_names)) = 2%nat
      /\ kept_rows (extract_text (document body_two_names))
                   (extract_annotations (document body_two_names))
         = [mkRow (py "persName") 1 0 4]).
Proof. conjuncts; reflexivity. Qed.

(** ** Malformed markup and unreadable documents *)

Lemma add_text_falsy (t : option str) (ctx : Context) :
  truthy t = false -> add_text_to_context t ctx = ctx.
Proof. intros H; unfold add_text_to_context; now rewrite H. Qed.

Lemma walk_children_app (cs1 : list Element) (e : Element)
    (cs2 : list Element) (ctx : Context) :
  walk_children (cs1 ++ e :: cs2) ctx
  = walk_children cs2
      (add_if (tail e) (process_element e (walk_children cs1 ctx))).
Proof. unfold walk_children; rewrite fold_left_app; reflexivity. Qed.

Lemma process_container (e : Element) (ctx : Context) :
  is_name e "pb" = false -> is_name e "lb" = false ->
  is_name e "choice" = false -> is_name e "note" = false ->
  is_name e "subst" = false ->
  process_element e ctx
  = annotate e (global_offset ctx)
      (walk_children (children e) (add_if (text e) ctx)).
Proof.
  intros H1 H2 H3 H4 H5; rewrite process_element_eq.
  now rewrite H1, H2, H3, H4, H5.
Qed.

Lemma process_files_from (M : Type) (md : Element -> M)
    (parse : str -> Element + str) (raised : Element -> option str)
    (files : list str) (st : list (Document M) * list str) :
  fold_left (process_file M md parse raised) files st
  = (fst st ++ extracted md parse raised files,
     snd st ++ error_lines parse raised files).
Proof.
  revert st; induction files as [|f files IH]; intros [docs pr]; simpl.
  - now rewrite !app_nil_r.
  - rewrite IH; unfold process_file, extract_document_data; simpl.
    destruct (parse f) as [root|e]; [destruct (raised root)|]; simpl;
      rewrite <- ?app_assoc; reflexivity.
Qed.

Lemma process_files_eq (M : Type) (md : Element -> M)
    (parse : str -> Element + str) (raised : Element -> option str)
    (files printed : list str) :
  process_files M md parse raised files printed
  = (extracted md parse raised files,
     printed ++ error_lines parse raised files).
Proof. unfold process_files; now rewrite process_files_from. Qed.

(** The three ways the extraction of one file ends: the parse raises; the
    parse returns and the work on the tree raises; neither raises and the
    document is returned. *)
Lemma extract_document_data_cases (M : Type) (md : Element -> M)
    (parse : str -> Element + str) (raised : Element -> option str)
    (f : str) :
  (forall msg, parse f = inr msg ->
               extract_document_data M md parse raised f = inr msg)
  /\ (forall root msg,
         parse f = inl root -> raised root = Some msg ->
         extract_document_data M md parse raised f = inr msg)
  /\ (forall root,
         parse f = inl root -> raised root = None ->
         extract_document_data M md parse raised f
         = inl (mkDocument f (md root) (extract_text root)
                           (extract_annotations root))).
Proof.
  unfold extract_document_data; conjuncts.
  - now intros msg ->.
  - now intros root msg -> ->.
  - now intros root -> ->.
Qed.

Lemma extracted_skips (M : Type) (md : Element -> M)
    (parse : str -> Element + str) (raised : Element -> option str)
    (l1 : list str) (f : str) (l2 : list str) (msg : str) :
  extract_document_data M md parse raised f = inr msg ->
  extracted md parse raised (l1 ++ f :: l2)
  = extracted md parse raised l1 ++ extracted md parse raised l2
  /\ error_lines parse raised (l1 ++ f :: l2)
     = error_lines parse raised l1
       ++ error_line f msg :: error_lines parse raised l2.
Proof.
  intros H; unfold extracted, error_lines.
  rewrite !flat_map_app; simpl; rewrite H; split; [reflexivity|].
  unfold extract_document_data in H.
  destruct (parse f) as [root|e]; [destruct (raised root)|];
    inversion H; reflexivity.
Qed.

(** C9, as the specification words it, fails: a choice with no expansion
    records [None] as its alternative, where the same choice with an empty
    expansion records the empty string; and a choice with neither side
    records [None] as its text, for which the export writes no row, where a
    choice with two empty sides records the empty string and gets its
    row. *)
Lemma missing_expansion_is_not_empty :
  map alternative_text
      (annotations (process_element choice_no_expan initial_context))
  = [None]
  /\ map alternative_text
         (annotations (process_element choice_empty_expan initial_context))
     = [Some []]
  /\ process_element choice_no_expan initial_context
     <> process_element choice_empty_expan initial_context
  /\ kept_rows [] (annotations (process_element choice_bare initial_context))
     = []
  /\ kept_rows []
       (annotations (process_element choice_empty_sides initial_context))
     = [mkRow (py "choice") 1 0 0].
Proof. conjuncts; try reflexivity; discriminate. Qed.

(** C9, amended. A choice or substitution node without one of its nested
    elements has [None] for that side: nothing is appended for it, as for an
    empty string, and the annotation records [None] for it; the node is
    handled like any other and the walker goes on with its tail and the
    children after it. In the corpus loop any exception raised while one
    document is extracted, by the parse or by the work on the parsed tree,
    is caught: the file is printed with its error and left out, and the
    documents of the other files are extracted, in order. *)
Theorem missing_side_is_none :
  (forall e ctx,
      element_name e = py "choice" -> find_descendant "expan" e = None ->
      let abbr_text := text_of_found (find_descendant "abbr" e) in
      let ctx1 := add_text_to_context abbr_text ctx in
      process_element e ctx
      = append_annotation
          (mkAnnotation (py "choice") None abbr_text None
                        (global_offset ctx) (global_offset ctx1)
                        (current_page ctx) None) ctx1)
  /\ (forall e ctx,
        element_name e = py "choice" -> find_descendant "abbr" e = None ->
        let expan_text := text_of_found (find_descendant "expan" e) in
        let ctx1 := add_text_to_context expan_text ctx in
        process_element e ctx
        = append_annotation
            (mkAnnotation (py "choice") None
                          (if truthy expan_text then expan_text else None)
                          (if truthy expan_text then None else expan_text)
                          (global_offset ctx) (global_offset ctx1)
                          (current_page ctx) None) ctx1)
  /\ (forall e ctx,
        element_name e = py "subst" -> find_descendant "del" e = None ->
        let add_text := text_of_found (find_descendant "add" e) in
        let ctx1 := add_text_to_context add_text ctx in
        process_element e ctx
        = append_annotation
            (mkAnnotation (py "substitution") None add_text None
                          (global_offset ctx) (global_offset ctx1)
                          (current_page ctx) (Some (None, add_text))) ctx1)
  /\ (forall e ctx,
        element_name e = py "subst" -> find_descendant "add" e = None ->
        let del_text := text_of_found (find_descendant "del" e) in
        process_element e ctx
        = append_annotation
            (mkAnnotation (py "substitution") None None del_text
                          (global_offset ctx) (global_offset ctx)
                          (current_page ctx) (Some (del_text, None))) ctx)
  /\ (forall ctx,
        add_text_to_context None ctx = ctx
        /\ add_text_to_context (Some []) ctx = ctx)
  /\ (forall e ctx,
        is_name e "pb" = false -> is_name e "lb" = false ->
        is_name e "choice" = false -> is_name e "note" = false ->
        is_name e "subst" = false ->
        process_element e ctx
        = annotate e (global_offset ctx)
            (walk_children (children e) (add_if (text e) ctx)))
  /\ (forall cs1 e cs2 ctx,
        walk_children (cs1 ++ e :: cs2) ctx
        = walk_children cs2
            (add_if (tail e) (process_element e (walk_children cs1 ctx))))
  /\ (forall (M : Type) (md : Element -> M) parse raised files printed,
        process_files M md parse raised files printed
        = (extracted md parse raised files,
           printed ++ error_lines parse raised files))
  /\ (forall (M : Type) (md : Element -> M) parse raised l1 f l2 msg,
        extract_document_data M md parse raised f = inr msg ->
        extracted md parse raised (l1 ++ f :: l2)
        = extracted md parse raised l1 ++ extracted md parse raised l2
        /\ error_lines parse raised (l1 ++ f :: l2)
           = error_lines parse raised l1
             ++ error_line f msg :: error_lines parse raised l2)
  /\ (forall (M : Type) (md : Element -> M) parse raised f,
        (forall msg, parse f = inr msg ->
                     extract_document_data M md parse raised f = inr msg)
        /\ (forall root msg,
               parse f = inl root -> raised root = Some msg ->
               extract_document_data M md parse raised f = inr msg)
        /\ (forall root,
               parse f = inl root -> raised root = None ->
               extract_document_data M md parse raised f
               = inl (mkDocument f (md root) (extract_text root)
                                 (extract_annotations root)))).
Proof.
  conjuncts.
  - intros e ctx H Hx abbr_text ctx1.
    pose proof (process_choice_eq e ctx H) as E; cbv zeta in E.
    rewrite Hx in E; exact E.
  - intros e ctx H Ha expan_text ctx1.
    pose proof (process_choice_eq e ctx H) as E; cbv zeta in E.
    rewrite Ha in E; fold expan_text in E; simpl text_of_found in E.
    subst ctx1; destruct (truthy expan_text) eqn:T; [exact E|].
    rewrite (add_text_falsy expan_text ctx T).
    rewrite (add_text_falsy None ctx eq_refl) in E; exact E.
  - intros e ctx H Hd add_text ctx1.
    pose proof (process_subst_eq e ctx H) as E; cbv zeta in E.
    rewrite Hd in E; exact E.
  - intros e ctx H Ha del_text.
    pose proof (process_subst_eq e ctx H) as E; cbv zeta in E.
    rewrite Ha in E; simpl text_of_found in E.
    rewrite (add_text_falsy None ctx eq_refl) in E; exact E.
  - intros ctx; split; reflexivity.
  - exact process_container.
  - exact walk_children_app.
  - exact process_files_eq.
  - exact extracted_skips.
  - exact extract_document_data_cases.
Qed.

Lemma missing_side_is_none_witness :
  annotations (process_element choice_no_expan initial_context)
  = [mkAnnotation (py "choice") None (lit "Jan.") None 0 4 None None]
  /\ map doc_text
         (extracted (fun _ => tt) parse_example raised_example
                    ([py "a.xml"] ++ py "bad.xml" :: [py "b.xml"]))
     = [py "word next"; py "word next"]
  /\ map doc_text
         (extracted (fun _ => tt) parse_example raised_example
                    ([py "a.xml"] ++ py "deep.xml" :: [py "b.xml"]))
     = [py "word next"; py "word next"]
  /\ error_lines parse_example raised_example
                 ([py "a.xml"] ++ py "deep.xml" :: [py "b.xml"])
     = [py "Error processing deep.xml: maximum recursion depth exceeded"].
Proof.
  destruct missing_side_is_none as (H1 & _ & _ & _ & _ & _ & _ & _ & H9 & _).
  conjuncts.
  - rewrite (H1 choice_no_expan initial_context eq_refl eq_refl).
    reflexivity.
  - rewrite (proj1 (H9 unit (fun _ => tt) parse_example raised_example
                       [py "a.xml"] (py "bad.xml") [py "b.xml"]
                       (py "not well-formed") eq_refl)).
    reflexivity.
  - rewrite (proj1 (H9 unit (fun _ => tt) parse_example raised_example
                       [py "a.xml"] (py "deep.xml") [py "b.xml"]
                       (py "maximum recursion depth exceeded") eq_refl)).
    reflexivity.
  - rewrite (proj2 (H9 unit (fun _ => tt) parse_example raised_example
                       [py "a.xml"] (py "deep.xml") [py "b.xml"]
                       (py "maximum recursion depth exceeded") eq_refl)).
    reflexivity.
Defined.

(** * Further properties of the extraction *)

(** ** Slices *)

Lemma slice_within (s : str) (i j : Z) :
  0 <= i -> i <= j -> j <= Z.of_nat (List.length s) ->
  slice s i j = firstn (Z.to_nat (j - i)) (skipn (Z.to_nat i) s).
Proof.
  intros Hi Hij Hj; unfold slice, clamp.
  destruct (Z.ltb_spec i 0); [lia|].
  destruct (Z.ltb_spec j 0); [lia|].
  now rewrite !Z.min_l by lia.
Qed.

Lemma slice_prefix (b d : str) (i j : Z) :
  0 <= i -> i <= j -> j <= Z.of_nat (List.length b) ->
  slice (b ++ d) i j = slice b i j.
Proof.
  intros Hi Hij Hj.
  rewrite !slice_within by (rewrite ?length_app; lia).
  rewrite skipn_app, firstn_app.
  replace (Z.to_nat i - List.length b)%nat with 0%nat by lia.
  rewrite length_skipn.
  replace (Z.to_nat (j - i) - (List.length b - Z.to_nat i))%nat
    with 0%nat by lia.
  simpl; now rewrite app_nil_r.
Qed.

Lemma slice_suffix (b d : str) :
  slice (b ++ d) (Z.of_nat (List.length b))
        (Z.of_nat (List.length b) + Z.of_nat (List.length d))
  = d.
Proof.
  rewrite slice_within by (rewrite ?length_app; lia).
  rewrite Nat2Z.id, skipn_app, skipn_all, Nat.sub_diag; simpl.
  replace (Z.to_nat _) with (List.length d) by lia.
  apply firstn_all.
Qed.

(** ** The state of a traversal *)

Lemma well_formed_grows (b d : str) (a : Annotation) :
  well_formed b a -> well_formed (b ++ d) a.
Proof.
  unfold well_formed; destruct (attributes a); [auto|].
  rewrite length_app.
  intros [(T & R & N) | (K & S0 & E & L & S)]; [left | right].
  - conjuncts; auto; lia.
  - conjuncts; auto; try lia.
    rewrite slice_prefix; [exact S | lia | lia | lia].
Qed.

Lemma StronglySorted_snoc (l : list Z) (y : Z) :
  StronglySorted Z.le l -> Forall (fun x => x <= y) l ->
  StronglySorted Z.le (l ++ [y]).
Proof.
  induction 1 as [|x l S IH F]; intros H; simpl.
  - repeat constructor.
  - inversion H as [|? ? Hx Hl]; subst.
    constructor; [apply IH, Hl|].
    apply Forall_app; split; [exact F | repeat constructor; exact Hx].
Qed.

Lemma Step_WsInv (n : nat) (a b : Context) : Step n a b -> WsInv a -> WsInv b.
Proof. intros (_ & _ & _ & _ & _ & _ & _ & W); exact W. Qed.

Lemma head_ok_snoc (b : str) (c : char) :
  head_ok b -> (b = [] -> isspace c = true -> c = newline) ->
  head_ok (b ++ [c]).
Proof. destruct b; simpl; auto. Qed.

Lemma Good_append_char (c : char) (ctx : Context) :
  last_char_is_whitespace ctx = false \/ isspace c = false \/ c = newline ->
  (isspace c = true -> c = space \/ c = newline) ->
  Good ctx -> Good (append_char c (isspace c) ctx).
Proof.
  intros Hadj Hws (W & H & O & A & P & G & S & C).
  unfold Good; simpl; conjuncts; auto.
  - exact (Step_WsInv _ _ _ (Step_append_char c ctx Hadj Hws) W).
  - apply head_ok_snoc; [exact H|].
    intros Hb Hc; destruct W as (F & _); rewrite Hb in F.
    destruct Hadj as [Hf | [Hf | Hf]]; [|congruence|exact Hf].
    rewrite F in Hf; discriminate.
  - rewrite length_app; simpl; lia.
  - eapply Forall_impl; [|exact A]; intros a; apply well_formed_grows.
  - eapply Forall_impl; [|exact G]; simpl.
    intros p [? ?]; split; [lia | assumption].
Qed.

Lemma Good_add_char (c : char) (ctx : Context) :
  (isspace c = true -> c = space) -> Good ctx -> Good (add_char ctx c).
Proof.
  intros Hc G; unfold add_char.
  destruct (isspace c) eqn:E.
  - destruct (last_char_is_whitespace ctx) eqn:F; simpl; [exact G|].
    rewrite <- E; apply Good_append_char; auto.
  - rewrite <- E; apply Good_append_char; [auto | congruence | exact G].
Qed.

Lemma Good_add_text_to_context (t : option str) (ctx : Context) :
  Good ctx -> Good (add_text_to_context t ctx).
Proof.
  unfold add_text_to_context; destruct (negb (truthy t)); [auto|].
  pose proof (re_sub_1_spaces (or_empty t) []) as H.
  fold (re_sub_ws 1 (or_empty t)) in H.
  revert ctx; induction H as [|c l Hc _ IH]; intros ctx G; simpl; [exact G|].
  apply IH, Good_add_char; assumption.
Qed.

Lemma Good_add_if (t : option str) (ctx : Context) :
  Good ctx -> Good (add_if t ctx).
Proof. rewrite add_if_eq; apply Good_add_text_to_context. Qed.

Lemma page_known_current (ctx : Context) (a : Annotation) :
  current_page ctx = last_page_label (pages ctx) ->
  page a = current_page ctx -> page_known (pages ctx) a.
Proof.
  unfold page_known, last_page_label; intros C ->; rewrite C.
  destruct (rev (pages ctx)) as [|p r] eqn:E; [left; reflexivity|].
  right; exists p; split; [|reflexivity].
  apply in_rev; rewrite E; left; reflexivity.
Qed.

Lemma Good_append_annotation (a : Annotation) (ctx : Context) :
  well_formed (text_content ctx) a -> page a = current_page ctx ->
  Good ctx -> Good (append_annotation a ctx).
Proof.
  intros Ha Hp (W & H & O & A & P & G & S & C).
  unfold Good; simpl; conjuncts; auto.
  - apply Forall_app; split; [exact A | repeat constructor; exact Ha].
  - apply Forall_app; split; [exact P|].
    constructor; [|constructor]; now apply page_known_current.
Qed.

Lemma Good_set_page (p : str) (ctx : Context) :
  p <> [] -> Good ctx -> Good (set_page p ctx).
Proof.
  intros Hp (W & H & O & A & P & G & S & C).
  unfold Good; simpl; conjuncts; auto.
  - eapply Forall_impl; [|exact P].
    intros a [Ha | (q & Hq & Ha)]; [left; exact Ha | right].
    exists q; split; [apply in_or_app; left; exact Hq | exact Ha].
  - apply Forall_app; split; [exact G|].
    constructor; [|constructor]; simpl; split; [lia | exact Hp].
  - rewrite map_app; apply StronglySorted_snoc; [exact S|].
    apply Forall_map; eapply Forall_impl; [|exact G]; simpl.
    intros q [? _]; lia.
  - unfold last_page_label; rewrite rev_app_distr; reflexivity.
Qed.

Lemma Good_page_break (e : Element) (ctx : Context) :
  Good ctx -> Good (page_break e ctx).
Proof.
  intros G; unfold page_break.
  destruct (get (attrib e) (py "n")) as [[|c n]|]; simpl; try exact G.
  apply Good_set_page; [discriminate | exact G].
Qed.

Lemma Good_line_break (ctx : Context) : Good ctx -> Good (line_break ctx).
Proof. apply (Good_append_char newline); auto. Qed.

Lemma well_formed_special (kind : str) (t alt : option str)
    (det : option (option str * option str)) (cp : option str)
    (ctx : Context) :
  kind = py "choice" /\ det = None
  \/ kind = py "substitution" /\ det = Some (alt, t) ->
  canonical (or_empty t) -> Good ctx ->
  well_formed (text_content (add_text_to_context t ctx))
    (mkAnnotation kind None t alt (global_offset ctx)
                  (global_offset (add_text_to_context t ctx)) cp det).
Proof.
  intros K Hc (_ & _ & O & _).
  destruct (add_found t ctx Hc) as [T O'].
  unfold well_formed; simpl; right; rewrite T, O', O, length_app, length_map.
  conjuncts; auto; try lia.
  rewrite <- (length_map to_space (or_empty t)); apply slice_suffix.
Qed.

Lemma Good_choice (e : Element) (ctx : Context) :
  Good ctx -> Good (choice e ctx).
Proof.
  intros G; unfold choice, choice_annotation.
  set (abbr_text := text_of_found (find_descendant "abbr" e)).
  set (expan_text := text_of_found (find_descendant "expan" e)).
  set (chosen := if truthy expan_text then expan_text else abbr_text).
  rewrite add_if_eq.
  apply Good_append_annotation;
    [|reflexivity|apply Good_add_text_to_context, G].
  apply well_formed_special; [left; auto | | exact G].
  subst chosen; destruct (truthy expan_text); apply text_of_found_canonical.
Qed.

Lemma Good_subst (e : Element) (ctx : Context) :
  Good ctx -> Good (subst e ctx).
Proof.
  intros G; unfold subst, subst_annotation.
  rewrite add_if_eq.
  apply Good_append_annotation;
    [|reflexivity|apply Good_add_text_to_context, G].
  apply well_formed_special;
    [right; auto | apply text_of_found_canonical | exact G].
Qed.

Lemma Good_note (e : Element) (ctx : Context) :
  Good ctx -> Good (note e ctx).
Proof.
  intros G; unfold note.
  set (ctx1 := if negb _ then _ else _).
  assert (G1 : Good ctx1).
  { subst ctx1; destruct (last_char_is_whitespace ctx) eqn:F; simpl;
      [exact G|].
    apply (Good_append_char space); auto. }
  apply Good_append_annotation; [|reflexivity|exact G1].
  destruct G1 as (_ & _ & O & _).
  unfold well_formed, note_annotation; simpl; left.
  conjuncts; [reflexivity | lia | lia |].
  exists (get_element_text e); split; reflexivity.
Qed.

Lemma Good_annotate (e : Element) (start : Z) (ctx : Context) :
  is_name e "note" = false -> Good ctx -> Good (annotate e start ctx).
Proof.
  intros N G; unfold annotate.
  destruct (existsb _ structural) eqn:S; simpl; [exact G|].
  destruct (attrib e) as [|kv at'] eqn:A; [exact G|].
  apply Good_append_annotation; [|reflexivity|exact G].
  unfold well_formed, generic_annotation; simpl; rewrite A.
  conjuncts; auto.
  - discriminate.
  - intros H; unfold is_name in N; rewrite H in N; discriminate.
  - exists (get_element_text e); split;
      [reflexivity | apply get_element_text_canonical].
Qed.

Lemma Good_walk_children (cs : list Element) :
  Forall (fun e => forall ctx, Good ctx -> Good (process_element e ctx)) cs ->
  forall ctx, Good ctx -> Good (walk_children cs ctx).
Proof.
  unfold walk_children.
  induction 1 as [|c cs Hc _ IH]; intros ctx G; simpl; [exact G|].
  apply IH, Good_add_if, Hc, G.
Qed.

Lemma is_name_eq (e : Element) (n : string) :
  is_name e n = true -> element_name e = py n.
Proof. apply str_eqb_eq. Qed.

(** The walker keeps the state of the traversal. *)
Lemma Good_process_element (e : Element) :
  forall ctx, Good ctx -> Good (process_element e ctx).
Proof.
  induction e as [t a tx tl cs IH] using Element_ind; intros ctx G.
  rewrite process_element_eq.
  destruct (is_name _ "pb") eqn:Npb.
  { apply Good_annotate; [|apply Good_page_break, G].
    unfold is_name; rewrite (is_name_eq _ _ Npb); reflexivity. }
  destruct (is_name _ "lb") eqn:Nlb.
  { apply Good_annotate; [|apply Good_line_break, G].
    unfold is_name; rewrite (is_name_eq _ _ Nlb); reflexivity. }
  destruct (is_name _ "choice"); [apply Good_choice, G|].
  destruct (is_name _ "note") eqn:Nnote; [apply Good_note, G|].
  destruct (is_name _ "subst"); [apply Good_subst, G|].
  apply Good_annotate; [exact Nnote|].
  apply (Good_walk_children cs IH), Good_add_if, G.
Qed.

Lemma Good_initial : Good initial_context.
Proof.
  unfold Good; simpl; conjuncts; auto using WsInv_initial; constructor.
Qed.

Lemma Good_extract (root : Element) : Good (extract_context root).
Proof.
  unfold extract_context; destruct (find_descendant "body" root).
  - apply Good_process_element, Good_initial.
  - apply Good_initial.
Qed.

(** ** The records of a document *)

(** X1. The page records of a document have non-empty labels and offsets
    within the text, and their offsets never decrease along the list. *)
Theorem page_records_ordered (root : Element) :
  Forall (fun p => 0 <= offset p <= Z.of_nat (List.length (extract_text root))
                   /\ page_num p <> []) (extract_pages root)
  /\ StronglySorted Z.le (map offset (extract_pages root)).
Proof.
  destruct (Good_extract root) as (_ & _ & O & _ & _ & G & S & _).
  unfold extract_pages, extract_text; rewrite <- O; split; assumption.
Qed.

(** X2. The page of an annotation is [None] or the label of one of the
    document's page records; in a document without a numbered page break
    every annotation has page [None]. *)
Theorem annotation_pages_are_recorded (root : Element) :
  Forall (page_known (extract_pages root)) (extract_annotations root)
  /\ (extract_pages root = [] ->
      Forall (fun a => page a = None) (extract_annotations root)).
Proof.
  destruct (Good_extract root) as (_ & _ & _ & _ & P & _).
  split; [exact P|].
  unfold extract_pages, extract_annotations; intros E; rewrite E in P.
  eapply Forall_impl; [|exact P].
  intros a [H | (p & [] & _)]; exact H.
Qed.

Lemma annotation_pages_are_recorded_witness :
  Forall (fun a => page a = None) (extract_annotations (document body_choice)).
Proof.
  apply (proj2 (annotation_pages_are_recorded (document body_choice))).
  vm_compute; reflexivity.
Defined.

Lemma well_formed_at (root : Element) (a : Annotation) :
  In a (extract_annotations root) -> well_formed (extract_text root) a.
Proof.
  destruct (Good_extract root) as (_ & _ & _ & A & _).
  rewrite Forall_forall in A; apply A.
Qed.

Lemma special_not_generic (b : str) (a : Annotation) :
  well_formed b a ->
  ann_type a = py "choice"
  \/ ann_type a = py "substitution" /\ attributes a = None ->
  0 <= start_offset a
  /\ end_offset a
     = start_offset a + Z.of_nat (List.length (or_empty (ann_text a)))
  /\ end_offset a <= Z.of_nat (List.length b)
  /\ slice b (start_offset a) (end_offset a)
     = map to_space (or_empty (ann_text a)).
Proof.
  unfold well_formed; intros W K.
  destruct (attributes a) as [at'|].
  - destruct W as (_ & S & _).
    destruct K as [K | [_ K]]; [|discriminate].
    rewrite K in S; discriminate.
  - destruct W as [(N & _) | (_ & W)]; [|exact W].
    destruct K as [K | [K _]]; rewrite K in N; discriminate.
Qed.

(** X3. The offsets of a choice annotation, and of the annotation the
    substitution handler records, cut the annotation's text out of the
    document's final text, whitespace characters read as spaces; the span
    is as long as the text. *)
Theorem special_forms_cut_their_text (root : Element) (a : Annotation) :
  In a (extract_annotations root) ->
  ann_type a = py "choice"
  \/ ann_type a = py "substitution" /\ attributes a = None ->
  slice (extract_text root) (start_offset a) (end_offset a)
  = map to_space (or_empty (ann_text a))
  /\ end_offset a
     = start_offset a + Z.of_nat (List.length (or_empty (ann_text a))).
Proof.
  intros Ha K.
  destruct (special_not_generic _ a (well_formed_at root a Ha) K)
    as (_ & E & _ & S).
  split; assumption.
Qed.

Lemma special_forms_cut_their_text_witness :
  slice (extract_text (document body_choice))
        (start_offset january_annotation) (end_offset january_annotation)
  = map to_space (or_empty (ann_text january_annotation))
  /\ end_offset january_annotation
     = start_offset january_annotation
       + Z.of_nat (List.length (or_empty (ann_text january_annotation))).
Proof.
  apply (special_forms_cut_their_text (document body_choice)
           january_annotation).
  - vm_compute; left; reflexivity.
  - left; reflexivity.
Defined.




(** X5. A note annotation starts within the text, ends the length of its
    text after its start, and has neither attributes nor an alternative
    shape: no other handler records the type note. *)
Theorem note_annotations (root : Element) (a : Annotation) :
  In a (extract_annotations root) ->
  ann_type a = py "note" ->
  attributes a = None
  /\ 0 <= start_offset a <= Z.of_nat (List.length (extract_text root))
  /\ exists t, ann_text a = Some t
               /\ end_offset a = start_offset a + Z.of_nat (List.length t).
Proof.
  intros Ha N.
  pose proof (well_formed_at root a Ha) as W; unfold well_formed in W.
  destruct (attributes a) as [at'|].
  - destruct W as (_ & _ & W & _); contradiction.
  - destruct W as [(_ & R & T) | ([[K _] | [K _]] & _)];
      [auto | rewrite K in N; discriminate | rewrite K in N; discriminate].
Qed.

Lemma note_annotations_witness :
  attributes comment_annotation = None
  /\ 0 <= start_offset comment_annotation
          <= Z.of_nat (List.length (extract_text (document body_note)))
  /\ exists t, ann_text comment_annotation = Some t
               /\ end_offset comment_annotation
                  = start_offset comment_annotation
                    + Z.of_nat (List.length t).
Proof.
  apply (note_annotations (document body_note) comment_annotation).
  - vm_compute; left; reflexivity.
  - reflexivity.
Defined.

(** X6. An annotation that carries attributes was recorded for a tag that is
    not structural and not a note, has at least one attribute, a canonical
    text and no alternative; the only structural name an annotation can have
    as its type is choice. *)
Theorem generic_annotations (root : Element) (a : Annotation) :
  In a (extract_annotations root) ->
  (forall at', attributes a = Some at' ->
     at' <> []
     /\ existsb (str_eqb (ann_type a)) structural = false
     /\ ann_type a <> py "note"
     /\ (exists t, ann_text a = Some t /\ canonical t)
     /\ alternative_text a = None /\ details a = None)
  /\ (existsb (str_eqb (ann_type a)) structural = true ->
      ann_type a = py "choice" /\ attributes a = None).
Proof.
  intros Ha.
  pose proof (well_formed_at root a Ha) as W; unfold well_formed in W.
  destruct (attributes a) as [at'|]; split.
  - intros ? [= <-]; exact W.
  - destruct W as (_ & S & _); rewrite S; discriminate.
  - discriminate.
  - intros S.
    destruct W as [(N & _) | ([[K _] | [K _]] & _)];
      try (rewrite N in S; discriminate);
      try (rewrite K in S; discriminate).
    auto.
Qed.

Lemma generic_annotations_witness :
  [(py "ref", py "a")] <> []
  /\ existsb (str_eqb (ann_type hans_annotation)) structural = false
  /\ ann_type hans_annotation <> py "note"
  /\ (exists t, ann_text hans_annotation = Some t /\ canonical t)
  /\ alternative_text hans_annotation = None
  /\ details hans_annotation = None.
Proof.
  assert (H : In hans_annotation
                 (extract_annotations (document body_two_names))).
  { vm_compute; left; reflexivity. }
  exact (proj1 (generic_annotations (document body_two_names)
                  hans_annotation H)
               [(py "ref", py "a")] eq_refl).
Defined.

(** X7. The text of a document does not start with a whitespace character
    other than the newline of a line break. *)
Theorem text_starts_clean (root : Element) (c : char) (rest : str) :
  extract_text root = c :: rest -> isspace c = true -> c = newline.
Proof.
  destruct (Good_extract root) as (_ & H & _).
  unfold extract_text; intros E; rewrite E in H; exact H.
Qed.

Lemma text_starts_clean_witness : newline = newline.
Proof.
  apply (text_starts_clean
           (document (node "body" [] (lit "  ") None
                           [node "lb" [] None (lit " x") []]))
           newline (py "x")).
  - vm_compute; reflexivity.
  - reflexivity.
Defined.

(** ** The accumulator on its own *)

Lemma add_char_ws_again (ctx : Context) (c d : char) :
  isspace c = true -> isspace d = true ->
  add_char (add_char ctx c) d = add_char ctx c.
Proof.
  intros Hc Hd; unfold add_char; rewrite Hc, Hd.
  destruct (last_char_is_whitespace ctx) eqn:F; simpl; now rewrite ?F.
Qed.

Lemma fold_ws_run (run : str) (ctx : Context) :
  Forall (fun c => isspace c = true) run -> run <> [] ->
  fold_left add_char (map to_space run) ctx = add_char ctx space.
Proof.
  intros H; revert ctx; induction H as [|c r Hc Hr IH]; intros ctx N;
    [contradiction|].
  cbn [map fold_left]; unfold to_space at 2; rewrite Hc.
  destruct r as [|d r]; [reflexivity|].
  rewrite IH by discriminate.
  apply add_char_ws_again; reflexivity.
Qed.

Lemma fold_flush (run : str) (ctx : Context) :
  Forall (fun c => isspace c = true) run ->
  fold_left add_char (flush 1 run) ctx
  = fold_left add_char (map to_space run) ctx.
Proof.
  intros H; rewrite flush_1; destruct run as [|c r]; [reflexivity|].
  rewrite fold_ws_run by (auto; discriminate); reflexivity.
Qed.

(** The scan of [add_text_to_context] gives the same context on the text as
    it is, whitespace read as spaces, as on the text with its runs
    collapsed. *)
Lemma fold_collapse (s run : str) (ctx : Context) :
  Forall (fun c => isspace c = true) run ->
  fold_left add_char (re_sub_ws_from 1 run s) ctx
  = fold_left add_char (map to_space (run ++ s)) ctx.
Proof.
  revert run ctx; induction s as [|c s IH]; intros run ctx H.
  - rewrite app_nil_r; apply fold_flush, H.
  - cbn [re_sub_ws_from]; destruct (isspace c) eqn:E.
    + rewrite IH by (apply Forall_app; split; [exact H | repeat constructor; exact E]).
      now rewrite <- app_assoc.
    + rewrite map_app, !fold_left_app, fold_flush by exact H.
      cbn [map fold_left]; rewrite (to_space_not_ws c E).
      apply (IH [] _ (Forall_nil _)).
Qed.

Lemma add_text_to_context_scan (t : option str) (ctx : Context) :
  add_text_to_context t ctx
  = fold_left add_char (map to_space (or_empty t)) ctx.
Proof.
  unfold add_text_to_context.
  destruct t as [[|c s]|]; try reflexivity.
  cbn [truthy negb or_empty]; apply (fold_collapse (c :: s) [] ctx).
  constructor.
Qed.

(** X8. Appending a text in two pieces gives the same context as appending
    it at once: how the source text is cut into element text and tails does
    not show in the result. *)
Theorem add_text_in_pieces (a b : str) (ctx : Context) :
  add_text_to_context (Some (a ++ b)) ctx
  = add_text_to_context (Some b) (add_text_to_context (Some a) ctx).
Proof.
  rewrite !add_text_to_context_scan; simpl or_empty.
  now rewrite map_app, fold_left_app.
Qed.

Lemma add_char_cases (ctx : Context) (c : char) :
  add_char ctx c = ctx /\ isspace c = true
  \/ exists ws, add_char ctx c = append_char c ws ctx.
Proof.
  unfold add_char; destruct (isspace c); [|right; eauto].
  destruct (last_char_is_whitespace ctx); simpl; [left; auto | right; eauto].
Qed.

Lemma fold_add_char_letters (l : str) (ctx : Context) :
  exists delta,
    text_content (fold_left add_char l ctx) = text_content ctx ++ delta
    /\ filter not_space delta = filter not_space l
    /\ (List.length delta <= List.length l)%nat.
Proof.
  revert ctx; induction l as [|c l IH]; intros ctx.
  - exists []; simpl; rewrite app_nil_r; auto.
  - cbn [fold_left]; destruct (IH (add_char ctx c)) as (d & T & F & L).
    destruct (add_char_cases ctx c) as [[H E] | [ws H]]; rewrite H in T |- *.
    + exists d; cbn [filter length]; unfold not_space at 2; rewrite E.
      conjuncts; [exact T | exact F | lia].
    + exists (c :: d); cbn [filter length]; rewrite F.
      simpl in T; rewrite <- app_assoc in T.
      conjuncts; [exact T | reflexivity | lia].
Qed.

Lemma filter_not_space_to_space (s : str) :
  filter not_space (map to_space s) = filter not_space s.
Proof.
  induction s as [|c s IH]; simpl; [reflexivity|].
  unfold not_space in *; rewrite isspace_to_space.
  destruct (isspace c) eqn:E; simpl; [exact IH|].
  now rewrite IH, (to_space_not_ws c E).
Qed.

(** X9. [add_text_to_context] only appends, never more characters than the
    text has, and what it appends has exactly the non-whitespace characters
    of the text, in their order: no letter is lost, added or moved. *)
Theorem add_text_keeps_letters (t : option str) (ctx : Context) :
  exists delta,
    text_content (add_text_to_context t ctx) = text_content ctx ++ delta
    /\ filter not_space delta = filter not_space (or_empty t)
    /\ (List.length delta <= List.length (or_empty t))%nat.
Proof.
  rewrite add_text_to_context_scan.
  destruct (fold_add_char_letters (map to_space (or_empty t)) ctx)
    as (d & T & F & L).
  exists d; rewrite <- (filter_not_space_to_space (or_empty t)).
  rewrite length_map in L; conjuncts; assumption.
Qed.

Lemma add_char_flag (ctx : Context) (c : char) :
  last_char_is_whitespace (add_char ctx c) = isspace c.
Proof.
  unfold add_char; destruct (isspace c); [|reflexivity].
  destruct (last_char_is_whitespace ctx) eqn:F; simpl; auto.
Qed.

(** X10. After a non-empty text is appended, the whitespace flag tells
    whether the text's last character is a whitespace, whatever the flag
    was and whether that character reached the buffer or not. *)
Theorem add_text_sets_flag (s : str) (c : char) (ctx : Context) :
  last_char_is_whitespace (add_text_to_context (Some (s ++ [c])) ctx)
  = isspace c.
Proof.
  rewrite add_text_to_context_scan; simpl or_empty.
  rewrite map_app, fold_left_app; cbn [map fold_left].
  now rewrite add_char_flag, isspace_to_space.
Qed.

(** ** Normalization only touches whitespace *)

Lemma filter_not_space_ws (run : str) :
  Forall (fun c => isspace c = true) run -> filter not_space run = [].
Proof.
  induction 1 as [|c r Hc _ IH]; simpl; [reflexivity|].
  unfold not_space at 1; now rewrite Hc.
Qed.

Lemma flush_short (run : str) :
  (List.length (flush 2 run) <= List.length run)%nat.
Proof.
  unfold flush; destruct (2 <=? List.length run)%nat eqn:E; [|lia].
  apply Nat.leb_le in E; simpl; lia.
Qed.

Lemma flush_2_ws (run : str) :
  Forall (fun c => isspace c = true) run ->
  Forall (fun c => isspace c = true) (flush 2 run).
Proof.
  intros H; unfold flush; destruct (2 <=? List.length run)%nat;
    [repeat constructor | exact H].
Qed.

Lemma re_sub_2_letters (s run : str) :
  Forall (fun c => isspace c = true) run ->
  filter not_space (re_sub_ws_from 2 run s) = filter not_space s
  /\ (List.length (re_sub_ws_from 2 run s)
      <= List.length run + List.length s)%nat.
Proof.
  revert run; induction s as [|c s IH]; intros run H; cbn [re_sub_ws_from].
  - split; [apply filter_not_space_ws, flush_2_ws, H|].
    pose proof (flush_short run); simpl; lia.
  - destruct (isspace c) eqn:E.
    + destruct (IH (run ++ [c])) as [F L].
      { apply Forall_app; split; [exact H | repeat constructor; exact E]. }
      rewrite F; cbn [filter]; unfold not_space at 2; rewrite E.
      rewrite length_app in L; simpl in *; split; [reflexivity | lia].
    + destruct (IH [] (Forall_nil _)) as [F L].
      rewrite filter_app, (filter_not_space_ws _ (flush_2_ws run H)).
      cbn [filter app]; rewrite F, length_app.
      pose proof (flush_short run); simpl in *; split; [reflexivity | lia].
Qed.

Lemma lstrip_letters (s : str) :
  filter not_space (lstrip s) = filter not_space s
  /\ (List.length (lstrip s) <= List.length s)%nat.
Proof.
  induction s as [|c s [F L]]; simpl; [auto|].
  unfold not_space at 2; destruct (isspace c) eqn:E; simpl.
  - split; [exact F | lia].
  - unfold not_space at 1; rewrite E; simpl; auto.
Qed.

Lemma filter_rev' (f : char -> bool) (s : str) :
  filter f (rev s) = rev (filter f s).
Proof.
  induction s as [|c s IH]; simpl; [reflexivity|].
  rewrite filter_app, IH; simpl; destruct (f c); simpl;
    [reflexivity | now rewrite app_nil_r].
Qed.

Lemma strip_letters (s : str) :
  filter not_space (strip s) = filter not_space s
  /\ (List.length (strip s) <= List.length s)%nat.
Proof.
  unfold strip.
  destruct (lstrip_letters s) as [F1 L1].
  destruct (lstrip_letters (rev (lstrip s))) as [F2 L2].
  rewrite filter_rev', F2, filter_rev', rev_involutive, F1.
  rewrite length_rev in *; split; [reflexivity | lia].
Qed.

Lemma remove_extra_spaces_letters (s : str) :
  filter not_space (remove_extra_spaces s) = filter not_space s
  /\ (List.length (remove_extra_spaces s) <= List.length s)%nat.
Proof.
  unfold remove_extra_spaces, re_sub_ws.
  destruct (re_sub_2_letters (strip s) [] (Forall_nil _)) as [F L].
  destruct (strip_letters s) as [F' L'].
  rewrite F, F'; simpl in L; split; [reflexivity | lia].
Qed.

(** X11. [remove_extra_spaces] is idempotent, never lengthens a text, and
    keeps its non-whitespace characters exactly, in their order. *)
Theorem remove_extra_spaces_normal_form (s : str) :
  remove_extra_spaces (remove_extra_spaces s) = remove_extra_spaces s
  /\ (List.length (remove_extra_spaces s) <= List.length s)%nat
  /\ filter not_space (remove_extra_spaces s) = filter not_space s.
Proof.
  conjuncts.
  - apply remove_extra_spaces_fixed;
      [apply remove_extra_spaces_head | apply remove_extra_spaces_tail
       | apply remove_extra_spaces_no_adj].
  - apply remove_extra_spaces_letters.
  - apply remove_extra_spaces_letters.
Qed.

(** X12. The canonical text of an element has exactly the non-whitespace
    characters of the element's text outside deletions, in document order:
    the normalization at every level of the recursion only touches
    whitespace. *)
Theorem get_element_text_letters (e : Element) :
  filter not_space (get_element_text e) = filter not_space (raw_text e).
Proof.
  induction e as [t a tx tl cs IH] using Element_ind.
  cbn [get_element_text raw_text].
  rewrite (proj1 (remove_extra_spaces_letters _)).
  rewrite !filter_app; f_equal.
  induction IH as [|c cs Hc _ IHcs]; simpl; [reflexivity|].
  rewrite !filter_app, IHcs; do 2 f_equal.
  destruct (is_del c); [reflexivity | exact Hc].
Qed.

(** ** The rows of the export *)

Lemma handled_In (a : Annotation) :
  handled a = true <-> In (ann_type a) annotation_types.
Proof.
  unfold handled; rewrite existsb_exists; split.
  - intros (t & Ht & E); apply str_eqb_eq in E; now subst.
  - intros H; exists (ann_type a); split; [exact H | apply str_eqb_refl].
Qed.

Lemma lcp_annotation_cases (st : Lcp) (a : Annotation) :
  lcp_annotation st a = st
  \/ handled a = true
     /\ check_cond (lcp_text st) a = true
     /\ lcp_annotation st a
        = mkLcp (if rebinds_text (ann_type a) then or_empty (ann_text a)
                 else lcp_text st)
                (increment (annotation_counters st) (ann_type a))
                (rows st
                 ++ [mkRow (ann_type a)
                           (counter (annotation_counters st) (ann_type a))
                           (start_offset a) (end_offset a)]).
Proof.
  unfold lcp_annotation, handled.
  destruct (existsb _ annotation_types); simpl; [|left; reflexivity].
  destruct (check_cond (lcp_text st) a); simpl; [right; auto | left; auto].
Qed.

Lemma check_cond_text (text : str) (a : Annotation) :
  check_cond text a = true -> exists t, ann_text a = Some t.
Proof.
  unfold check_cond; destruct (ann_text a) as [t|]; [eauto|].
  simpl; discriminate.
Qed.

Lemma counter_increment_same (d : list (str * Z)) (k : str) :
  In k (map fst d) -> counter (increment d k) k = counter d k + 1.
Proof.
  induction d as [|[k' v] d IH]; simpl; [contradiction|].
  destruct (str_eqb k' k) eqn:E; simpl; rewrite E; [reflexivity|].
  intros [H | H]; [|auto].
  subst k'; rewrite str_eqb_refl in E; discriminate.
Qed.

Lemma counter_increment_other (d : list (str * Z)) (k k' : str) :
  k <> k' -> counter (increment d k) k' = counter d k'.
Proof.
  intros N; induction d as [|[k0 v] d IH]; simpl; [reflexivity|].
  destruct (str_eqb k0 k) eqn:E; simpl.
  - apply str_eqb_eq in E; subst k0.
    destruct (str_eqb k k') eqn:E'; [|reflexivity].
    apply str_eqb_eq in E'; contradiction.
  - destruct (str_eqb k0 k'); [reflexivity | exact IH].
Qed.

Lemma keys_increment (d : list (str * Z)) (k : str) :
  map fst (increment d k) = map fst d.
Proof.
  induction d as [|[k' v] d IH]; simpl; [reflexivity|].
  destruct (str_eqb k' k); simpl; [reflexivity | now rewrite IH].
Qed.

Lemma count_up_S (n : nat) : count_up (S n) = count_up n ++ [1 + Z.of_nat n].
Proof.
  unfold count_up; rewrite seq_S, map_app; f_equal; cbn [map]; f_equal; lia.
Qed.

Lemma Numbered_initial : Numbered initial_counters [].
Proof.
  split; [reflexivity|].
  intros t Ht; simpl in Ht.
  repeat destruct Ht as [<- | Ht]; try contradiction; split; reflexivity.
Qed.

Lemma table_rows_snoc (t : str) (rs : list Row) (r : Row) :
  table_rows t (rs ++ [r])
  = table_rows t rs ++ (if str_eqb (row_table r) t then [r] else []).
Proof. unfold table_rows; rewrite filter_app; reflexivity. Qed.

Lemma Numbered_step (st : Lcp) (a : Annotation) :
  Numbered (annotation_counters st) (rows st) ->
  Numbered (annotation_counters (lcp_annotation st a))
           (rows (lcp_annotation st a)).
Proof.
  intros [K N].
  destruct (lcp_annotation_cases st a) as [-> | (H & _ & ->)];
    [split; assumption|].
  apply handled_In in H; cbn [annotation_counters rows].
  split; [now rewrite keys_increment|].
  intros t Ht; destruct (N t Ht) as [C I].
  rewrite table_rows_snoc; cbn [row_table].
  destruct (str_eqb (ann_type a) t) eqn:E.
  - apply str_eqb_eq in E; subst t.
    rewrite counter_increment_same by (rewrite K; exact H).
    rewrite length_app, map_app, I, C; cbn [length map row_id].
    rewrite Nat.add_1_r, count_up_S; split; [lia | reflexivity].
  - rewrite app_nil_r, counter_increment_other; [split; assumption|].
    intros Heq; rewrite Heq, str_eqb_refl in E; discriminate.
Qed.

Lemma Numbered_fold (anns : list Annotation) (st : Lcp) :
  Numbered (annotation_counters st) (rows st) ->
  Numbered (annotation_counters (fold_left lcp_annotation anns st))
           (rows (fold_left lcp_annotation anns st)).
Proof.
  revert st; induction anns as [|a anns IH]; intros st N; simpl; [exact N|].
  apply IH, Numbered_step, N.
Qed.

Lemma row_from_more (anns anns' : list Annotation) (r : Row) :
  (forall a, In a anns -> In a anns') -> row_from anns r -> row_from anns' r.
Proof. intros H (a & Ha & R); exists a; split; auto. Qed.

Lemma rows_fold (anns : list Annotation) (st : Lcp) :
  exists new,
    rows (fold_left lcp_annotation anns st) = rows st ++ new
    /\ Forall (row_from anns) new
    /\ (List.length new <= List.length anns)%nat.
Proof.
  revert st; induction anns as [|a anns IH]; intros st; simpl.
  - exists []; rewrite app_nil_r; auto.
  - destruct (IH (lcp_annotation st a)) as (new & R & F & L).
    assert (F' : Forall (row_from (a :: anns)) new).
    { eapply Forall_impl; [|exact F].
      intros r; apply row_from_more; intros x; now right. }
    destruct (lcp_annotation_cases st a) as [E | (H & C & E)];
      rewrite E in R |- *.
    + exists new; conjuncts; [exact R | exact F' | lia].
    + simpl in R; rewrite <- app_assoc in R.
      eexists; conjuncts; [exact R | | simpl; lia].
      constructor; [|exact F'].
      exists a; conjuncts;
        [now left | exact H | exact (check_cond_text _ _ C) | reflexivity].
Qed.

Lemma lcp_document_eq {M : Type} (c : list (str * Z)) (w : list Row)
    (d : list Z) (i : Z) (doc : Document M) :
  lcp_document (c, w, d, i) doc
  = (annotation_counters
       (fold_left lcp_annotation (doc_annotations doc)
                  (mkLcp (doc_text doc) c w)),
     rows (fold_left lcp_annotation (doc_annotations doc)
                     (mkLcp (doc_text doc) c w)),
     d ++ [i], i + 1).
Proof. reflexivity. Qed.

Lemma offsets_shift (i : Z) (n : nat) :
  i :: map (fun k => i + 1 + Z.of_nat k) (seq 0 n)
  = map (fun k => i + Z.of_nat k) (seq 0 (S n)).
Proof.
  cbn [seq map]; f_equal; [lia|].
  rewrite <- seq_shift, map_map; apply map_ext; intros k; lia.
Qed.

Lemma documents_fold {M : Type} (docs : list (Document M))
    (c : list (str * Z)) (w : list Row) (d : list Z) (i : Z) :
  exists c' new,
    fold_left lcp_document docs (c, w, d, i)
    = (c', w ++ new,
       d ++ map (fun k => i + Z.of_nat k) (seq 0 (List.length docs)),
       i + Z.of_nat (List.length docs))
    /\ Forall (row_from (flat_map doc_annotations docs)) new
    /\ (Numbered c w -> Numbered c' (w ++ new)).
Proof.
  revert c w d i; induction docs as [|doc docs IH]; intros c w d i.
  - exists c, []; simpl; rewrite !app_nil_r, Z.add_0_r; auto.
  - cbn [fold_left]; rewrite lcp_document_eq.
    set (st := fold_left lcp_annotation _ _).
    destruct (rows_fold (doc_annotations doc) (mkLcp (doc_text doc) c w))
      as (n1 & R1 & F1 & _); fold st in R1; simpl in R1.
    destruct (IH (annotation_counters st) (rows st) (d ++ [i]) (i + 1))
      as (c' & n2 & E & F2 & N2).
    exists c', (n1 ++ n2); rewrite E, R1; conjuncts.
    + rewrite <- !app_assoc; cbn [app]; rewrite offsets_shift.
      replace (i + 1 + Z.of_nat (List.length docs))
        with (i + Z.of_nat (List.length (doc :: docs)))
        by (cbn [length]; lia).
      reflexivity.
    + cbn [flat_map]; apply Forall_app; split.
      * eapply Forall_impl; [|exact F1]; intros r; apply row_from_more.
        intros x Hx; apply in_or_app; now left.
      * eapply Forall_impl; [|exact F2]; intros r; apply row_from_more.
        intros x Hx; apply in_or_app; now right.
    + intros N; rewrite app_assoc, <- R1; apply N2.
      apply (Numbered_fold (doc_annotations doc) (mkLcp (doc_text doc) c w)).
      exact N.
Qed.

Lemma convert_to_lcp_eq {M : Type}
    (corpus_data : list (str * list (Document M))) :
  exists c,
    fold_left lcp_document (flat_map snd corpus_data)
              (initial_counters, [], [], 1)
    = (c, fst (convert_to_lcp corpus_data), snd (convert_to_lcp corpus_data),
       1 + Z.of_nat (List.length (flat_map snd corpus_data)))
    /\ Forall (row_from (flat_map doc_annotations
                                  (flat_map snd corpus_data)))
              (fst (convert_to_lcp corpus_data))
    /\ Numbered c (fst (convert_to_lcp corpus_data))
    /\ snd (convert_to_lcp corpus_data)
       = count_up (List.length (flat_map snd corpus_data)).
Proof.
  unfold convert_to_lcp.
  destruct (documents_fold (flat_map snd corpus_data) initial_counters
                           [] [] 1) as (c & new & E & F & N).
  rewrite E; cbn [fst snd app]; exists c; conjuncts; auto.
  - apply N, Numbered_initial.
  - unfold count_up; rewrite <- seq_shift, map_map.
    apply map_ext; intros k; lia.
Qed.

(** X13. Every annotation row of the export was written for an annotation
    of one of the documents, whose type has a table (so never a note) and
    whose text is not [None]; the row's range is the annotation's own
    [start_offset] and [end_offset], whichever place the document has in
    the corpus. *)
Theorem export_rows_come_from_annotations {M : Type}
    (corpus_data : list (str * list (Document M))) (r : Row) :
  In r (fst (convert_to_lcp corpus_data)) ->
  exists doc a,
    In doc (flat_map snd corpus_data)
    /\ In a (doc_annotations doc)
    /\ In (ann_type a) annotation_types
    /\ (exists t, ann_text a = Some t)
    /\ row_shape r = annotation_shape a.
Proof.
  intros Hr.
  destruct (convert_to_lcp_eq corpus_data) as (c & _ & F & _).
  rewrite Forall_forall in F.
  destruct (F r Hr) as (a & Ha & H & T & S).
  apply in_flat_map in Ha as (doc & Hd & Ha).
  exists doc, a; conjuncts; auto.
  now apply handled_In.
Qed.

Lemma export_rows_come_from_annotations_witness :
  exists doc a,
    In doc (flat_map snd two_documents)
    /\ In a (doc_annotations doc)
    /\ In (ann_type a) annotation_types
    /\ (exists t, ann_text a = Some t)
    /\ row_shape (mkRow (py "choice") 2 10 17) = annotation_shape a.
Proof.
  apply (export_rows_come_from_annotations two_documents).
  vm_compute; right; left; reflexivity.
Defined.

(** X14. In every annotation table of the export the ids are 1, 2, 3, ...
    in the order the rows were written, across all documents. *)
Theorem export_ids_count_up {M : Type}
    (corpus_data : list (str * list (Document M))) (t : str) :
  In t annotation_types ->
  map row_id (table_rows t (fst (convert_to_lcp corpus_data)))
  = count_up (List.length (table_rows t (fst (convert_to_lcp corpus_data)))).
Proof.
  intros Ht.
  destruct (convert_to_lcp_eq corpus_data) as (c & _ & _ & [_ N] & _).
  apply (N t Ht).
Qed.

Lemma export_ids_count_up_witness :
  map row_id (table_rows (py "choice") (fst (convert_to_lcp two_documents)))
  = count_up
      (List.length
         (table_rows (py "choice") (fst (convert_to_lcp two_documents)))).
Proof.
  apply (export_ids_count_up two_documents (py "choice")).
  vm_compute; right; left; reflexivity.
Defined.

(** X15. Every document gets its row, with ids 1, 2, 3, ... in the order of
    the corpus, whatever becomes of its annotations. *)
Theorem every_document_gets_a_row {M : Type}
    (corpus_data : list (str * list (Document M))) :
  snd (convert_to_lcp corpus_data)
  = count_up (List.length (flat_map snd corpus_data)).
Proof.
  destruct (convert_to_lcp_eq corpus_data) as (c & _ & _ & _ & D); exact D.
Qed.

Lemma shapes_fold (text : str) (anns : list Annotation) (st : Lcp) :
  forallb never_rebinds anns = true -> lcp_text st = text ->
  map row_shape (rows (fold_left lcp_annotation anns st))
  = map row_shape (rows st)
    ++ map annotation_shape (filter (passes text) anns).
Proof.
  revert st; induction anns as [|a anns IH]; intros st H T.
  - simpl; now rewrite app_nil_r.
  - cbn [forallb] in H; apply andb_true_iff in H as [Ha H].
    cbn [fold_left filter]; unfold passes at 1.
    unfold never_rebinds in Ha; apply negb_true_iff in Ha.
    unfold lcp_annotation at 2; fold (handled a); rewrite Ha, T.
    destruct (handled a); cbn [negb andb]; [|now apply IH].
    destruct (check_cond text a); cbn [negb]; [|now apply IH].
    rewrite IH by (auto; reflexivity); cbn [rows map].
    rewrite map_app, <- app_assoc; reflexivity.
Qed.

(** X16. When none of a document's annotations is a placeName or a persName,
    the export writes a row for exactly the annotations whose type has a
    table and that pass the check against the document's text, in order and
    with their own offsets. *)
Theorem check_decides_without_names (text : str) (anns : list Annotation) :
  forallb never_rebinds anns = true ->
  map row_shape (kept_rows text anns)
  = map annotation_shape (filter (passes text) anns).
Proof.
  intros H; unfold kept_rows.
  exact (shapes_fold text anns (mkLcp text initial_counters []) H eq_refl).
Qed.

Lemma check_decides_without_names_witness :
  map row_shape
      (kept_rows (extract_text (document body_choice))
                 (extract_annotations (document body_choice)))
  = map annotation_shape
        (filter (passes (extract_text (document body_choice)))
                (extract_annotations (document body_choice))).
Proof.
  apply (check_decides_without_names
           (extract_text (document body_choice))
           (extract_annotations (document body_choice))).
  vm_compute; reflexivity.
Defined.

(** ** The corpus *)

Lemma dict_set_fresh {V : Type} (d : list (str * V)) (k : str) (v : V) :
  ~ In k (map fst d) -> dict_set d k v = d ++ [(k, v)].
Proof.
  induction d as [|[k' v'] d IH]; simpl; intros N; [reflexivity|].
  destruct (str_eqb k' k) eqn:E.
  - apply str_eqb_eq in E; exfalso; apply N; now left.
  - rewrite IH; [reflexivity | intros H; apply N; now right].
Qed.

Lemma process_corpus_from (M : Type) (md : Element -> M)
    (parse : str -> Element + str) (raised : Element -> option str)
    (items : list (str * list str))
    (d : list (str * list (Document M))) (pr : list str) :
  NoDup (map fst d ++ map fst items) ->
  fold_left (process_subdir M md parse raised) items (d, pr)
  = (d ++ map (fun it => (fst it, extracted md parse raised (snd it))) items,
     pr ++ flat_map (fun it => error_lines parse raised (snd it)) items).
Proof.
  revert d pr; induction items as [|[k files] items IH]; intros d pr N.
  - simpl; now rewrite !app_nil_r.
  - cbn [fold_left]; unfold process_subdir at 2; cbn [fst snd].
    rewrite process_files_eq; cbn [fst snd].
    cbn [map fst] in N.
    rewrite dict_set_fresh.
    + rewrite IH.
      * cbn [map flat_map fst snd]; now rewrite <- !app_assoc.
      * rewrite map_app; cbn [map fst]; rewrite <- app_assoc; exact N.
    + apply NoDup_remove_2 in N; intros H; apply N, in_or_app; now left.
Qed.

Lemma extracted_count (M : Type) (md : Element -> M)
    (parse : str -> Element + str) (raised : Element -> option str)
    (files : list str) :
  (List.length (extracted md parse raised files)
   + List.length (error_lines parse raised files) = List.length files)%nat.
Proof.
  induction files as [|f files IH]; [reflexivity|].
  unfold extracted, error_lines in *; cbn [flat_map].
  unfold extract_document_data at 1.
  rewrite !length_app.
  destruct (parse f) as [root|e]; [destruct (raised root)|]; simpl in *; lia.
Qed.

Lemma extracted_paths (M : Type) (md : Element -> M)
    (parse : str -> Element + str) (raised : Element -> option str)
    (files : list str) :
  map (@file_path M) (extracted md parse raised files)
  = filter (returns md parse raised) files.
Proof.
  induction files as [|f files IH]; [reflexivity|].
  unfold extracted in *; cbn [flat_map filter].
  rewrite map_app, IH; unfold returns at 2.
  unfold extract_document_data.
  destruct (parse f) as [root|e]; [destruct (raised root)|]; reflexivity.
Qed.

Lemma returns_spec (M : Type) (md : Element -> M)
    (parse : str -> Element + str) (raised : Element -> option str)
    (f : str) :
  returns md parse raised f = true
  <-> exists root, parse f = inl root /\ raised root = None.
Proof.
  unfold returns, extract_document_data.
  destruct (parse f) as [root|e]; [destruct (raised root) eqn:R|].
  - split; [discriminate|].
    intros (r & [= <-] & H); rewrite R in H; discriminate.
  - split; [eauto | reflexivity].
  - split; [discriminate | intros (r & H & _); discriminate].
Qed.

(** X17. For subdirectories with distinct names, [process_corpus] returns
    one entry per subdirectory, in order, each with the documents of its
    files whose extraction returns, in the order of the files, and prints
    one line per file whose extraction raises, in the parse or in the work
    on the parsed tree; a subdirectory whose files all fail keeps its entry
    with an empty list. Per subdirectory the documents and the printed
    lines together are as many as the files. *)
Theorem corpus_keeps_every_subdirectory (M : Type) (md : Element -> M)
    (parse : str -> Element + str) (raised : Element -> option str)
    (items : list (str * list str)) :
  NoDup (map fst items) ->
  process_corpus M md parse raised items
  = (map (fun it => (fst it, extracted md parse raised (snd it))) items,
     flat_map (fun it => error_lines parse raised (snd it)) items)
  /\ Forall (fun it =>
               (List.length (extracted md parse raised (snd it))
                + List.length (error_lines parse raised (snd it))
                = List.length (snd it))%nat
               /\ map (@file_path M) (extracted md parse raised (snd it))
                  = filter (returns md parse raised) (snd it)) items
  /\ (forall f,
         returns md parse raised f = true
         <-> exists root, parse f = inl root /\ raised root = None).
Proof.
  intros N; conjuncts.
  - unfold process_corpus; now rewrite process_corpus_from.
  - apply Forall_forall; intros it _; split;
      [apply extracted_count | apply extracted_paths].
  - apply returns_spec.
Qed.

Lemma corpus_keeps_every_subdirectory_witness :
  map (fun e => (fst e, map (@file_path unit) (snd e)))
      (fst (process_corpus unit (fun _ => tt) parse_example raised_example
                           two_subdirs))
  = [(py "FR", [py "a.xml"]); (py "GE", [])]
  /\ snd (process_corpus unit (fun _ => tt) parse_example raised_example
                         two_subdirs)
     = [py "Error processing bad.xml: not well-formed";
        py "Error processing bad.xml: not well-formed";
        py "Error processing deep.xml: maximum recursion depth exceeded"].
Proof.
  rewrite (proj1 (corpus_keeps_every_subdirectory unit (fun _ => tt)
                    parse_example raised_example two_subdirs
                    ltac:(vm_compute; repeat constructor;
                          simpl; intuition discriminate))).
  split; reflexivity.
Defined.

(** ** Segments, tokens and forms *)

Lemma dict_get_Some {V : Type} (d : list (str * V)) (k : str) (v : V) :
  dict_get d k = Some v -> In (k, v) d.
Proof.
  induction d as [|[k' v'] d IH]; simpl; [discriminate|].
  destruct (str_eqb k' k) eqn:E; [|auto].
  apply str_eqb_eq in E; subst k'; intros [= ->]; now left.
Qed.

Lemma dict_get_None {V : Type} (d : list (str * V)) (k : str) :
  dict_get d k = None -> ~ In k (map fst d).
Proof.
  induction d as [|[k' v'] d IH]; simpl; [tauto|].
  destruct (str_eqb k' k) eqn:E; [discriminate|].
  intros H [<- | H']; [|now apply IH].
  rewrite str_eqb_refl in E; discriminate.
Qed.

Lemma NoDup_snoc {A : Type} (l : list A) (x : A) :
  NoDup l -> ~ In x l -> NoDup (l ++ [x]).
Proof.
  induction l as [|a l IH]; intros N H; simpl.
  - constructor; [intros [] | constructor].
  - inversion N as [|? ? Ha Nl]; subst; constructor.
    + rewrite in_app_iff; intros [Hin | [Hx | []]]; [contradiction|].
      apply H; now left.
    + apply IH; [exact Nl | intros Hx; apply H; now right].
Qed.

Lemma StronglySorted_snoc_rel {A : Type} (R : A -> A -> Prop)
    (l : list A) (y : A) :
  StronglySorted R l -> Forall (fun x => R x y) l ->
  StronglySorted R (l ++ [y]).
Proof.
  induction 1 as [|x l S IH F]; intros H; simpl.
  - repeat constructor.
  - inversion H as [|? ? Hx Hl]; subst.
    constructor; [apply IH, Hl|].
    apply Forall_app; split; [exact F | repeat constructor; exact Hx].
Qed.

Lemma token_ok_later (st st' : Tokens) (r : TokenRow) :
  char_offset st <= char_offset st' ->
  (forall kv, In kv (form_dict st) -> In kv (form_dict st')) ->
  token_ok st r -> token_ok st' r.
Proof.
  intros O D (S1 & S2 & E & L & tok & I & Len).
  unfold token_ok; conjuncts; auto; try lia.
  exists tok; split; auto.
Qed.

Lemma TokInv_token (seg : str) (st : Tokens) (token : str) :
  token <> [] -> TokInv st -> TokInv (lcp_token seg st token).
Proof.
  intros Ht (O & I & Ids & N & F & FR & R & S).
  assert (Hlen : 0 < Z.of_nat (List.length token)).
  { destruct token; [contradiction | simpl length; lia]. }
  unfold TokInv, lcp_token; cbn [char_offset token_id form_dict form_rows
                                  token_rows segment_rows].
  conjuncts.
  - lia.
  - rewrite length_app; simpl length; lia.
  - rewrite map_app, length_app, Ids; cbn [map length tok_id].
    rewrite Nat.add_1_r, count_up_S, I; reflexivity.
  - destruct (dict_get (form_dict st) token) eqn:G; [exact N|].
    rewrite map_app; apply NoDup_snoc; [exact N|].
    now apply dict_get_None.
  - destruct (dict_get (form_dict st) token) eqn:G; [exact F|].
    rewrite map_app, length_app, F; cbn [map length snd].
    rewrite Nat.add_1_r, count_up_S; do 2 f_equal; lia.
  - destruct (dict_get (form_dict st) token) eqn:G; [exact FR|].
    rewrite map_app, FR; reflexivity.
  - apply Forall_app; split.
    + eapply Forall_impl; [|exact R]; intros r.
      apply token_ok_later; cbn [char_offset form_dict]; [lia|].
      intros kv Hkv; destruct (dict_get (form_dict st) token);
        [exact Hkv | apply in_or_app; now left].
    + constructor; [|constructor].
      unfold token_ok; cbn [tok_start tok_end tok_form tok_lemma
                             char_offset form_dict].
      conjuncts; try lia; try reflexivity.
      exists token; split; [|lia].
      destruct (dict_get (form_dict st) token) eqn:G.
      * now apply dict_get_Some.
      * apply in_or_app; right; now left.
  - apply StronglySorted_snoc_rel; [exact S|].
    eapply Forall_impl; [|exact R].
    intros r (_ & _ & E & _); unfold before; cbn [tok_start]; lia.
Qed.

Lemma nonempty_spec (s : str) : nonempty s = true <-> s <> [].
Proof. destruct s; simpl; split; congruence. Qed.

Lemma tokens_of_nonempty (segment : str) :
  Forall (fun t => t <> []) (tokens_of segment).
Proof.
  apply Forall_forall; intros t Ht.
  apply filter_In in Ht as [_ Ht]; now apply nonempty_spec.
Qed.

Lemma TokInv_tokens (seg : str) (ts : list str) (st : Tokens) :
  Forall (fun t => t <> []) ts -> TokInv st ->
  TokInv (fold_left (lcp_token seg) ts st).
Proof.
  intros H; revert st; induction H as [|t ts Ht _ IH]; intros st G; simpl;
    [exact G|].
  apply IH, TokInv_token; assumption.
Qed.

Lemma tokens_fold (seg : str) (ts : list str) (st : Tokens) :
  char_offset (fold_left (lcp_token seg) ts st) = char_offset st + span ts
  /\ segment_rows (fold_left (lcp_token seg) ts st) = segment_rows st.
Proof.
  revert st; induction ts as [|t ts IH]; intros st; cbn [fold_left span fold_right].
  - split; [lia | reflexivity].
  - destruct (IH (lcp_token seg st t)) as [O S]; rewrite O, S.
    fold (span ts); cbn [lcp_token char_offset segment_rows].
    split; [lia | reflexivity].
Qed.

Lemma span_nonneg (ts : list str) : 0 <= span ts.
Proof. induction ts as [|t ts IH]; simpl; [lia | fold (span ts); lia]. Qed.

Lemma TokInv_segment (uuid4 : nat -> str) (st : Tokens) (segment : str) :
  TokInv st -> TokInv (lcp_segment uuid4 st segment).
Proof.
  intros G; unfold lcp_segment.
  destruct (nonempty (strip segment)); cbn [negb]; [|exact G].
  set (seg := uuid4 _).
  pose proof (TokInv_tokens seg _ st (tokens_of_nonempty (strip segment)) G)
    as (O & I & Ids & N & F & FR & R & S).
  unfold TokInv; cbn [char_offset token_id form_dict form_rows token_rows].
  conjuncts; auto; [lia|].
  eapply Forall_impl; [|exact R]; intros r.
  apply token_ok_later; cbn [char_offset form_dict]; [lia | auto].
Qed.

Lemma TokInv_segments (uuid4 : nat -> str) (text : str) (st : Tokens) :
  TokInv st -> TokInv (lcp_segments uuid4 st text).
Proof.
  unfold lcp_segments; generalize (split_on is_newline text); intros l.
  revert st; induction l as [|s l IH]; intros st G; simpl; [exact G|].
  apply IH, TokInv_segment, G.
Qed.

Lemma TokInv_initial : TokInv initial_tokens.
Proof.
  unfold TokInv; simpl; conjuncts; try reflexivity; try constructor; lia.
Qed.

Lemma lcp_tokens_from (uuid4 : nat -> str) (texts : list str)
    (acc : Tokens * list (Z * Z)) :
  TokInv (fst acc) ->
  TokInv (fst (fold_left (lcp_tokens_document uuid4) texts acc)).
Proof.
  revert acc; induction texts as [|t texts IH]; intros acc G; simpl;
    [exact G|].
  apply IH; cbn [lcp_tokens_document fst]; apply TokInv_segments, G.
Qed.

Lemma TokInv_lcp_tokens (uuid4 : nat -> str) (texts : list str) :
  TokInv (fst (lcp_tokens uuid4 texts)).
Proof. apply lcp_tokens_from, TokInv_initial. Qed.

(** X18. The form table has ids 1, 2, 3, ... in the order of its rows and
    no token twice; it mirrors [form_dict]. *)
Theorem forms_are_numbered (uuid4 : nat -> str) (texts : list str) :
  let st := fst (lcp_tokens uuid4 texts) in
  map fst (form_rows st) = count_up (List.length (form_rows st))
  /\ NoDup (map snd (form_rows st))
  /\ form_rows st = map (fun kv => (snd kv, fst kv)) (form_dict st).
Proof.
  destruct (TokInv_lcp_tokens uuid4 texts) as (_ & _ & _ & N & F & FR & _).
  cbv zeta; rewrite FR, !map_map, length_map; cbn [fst snd].
  conjuncts; [exact F | exact N | reflexivity].
Qed.

(** X19. The token rows have ids 1, 2, 3, ..., the same id for lemma and
    form, and ranges that start at 1 or later, are not empty, and follow one
    another without overlap: every row ends before each later row starts. *)
Theorem token_rows_in_order (uuid4 : nat -> str) (texts : list str) :
  let rs := token_rows (fst (lcp_tokens uuid4 texts)) in
  map tok_id rs = count_up (List.length rs)
  /\ StronglySorted before rs
  /\ Forall (fun r => 1 <= tok_start r /\ tok_start r < tok_end r
                      /\ tok_lemma r = tok_form r) rs.
Proof.
  destruct (TokInv_lcp_tokens uuid4 texts) as (_ & _ & I & _ & _ & _ & R & S).
  cbv zeta; conjuncts; [exact I | exact S|].
  eapply Forall_impl; [|exact R]; intros r (A & B & _ & L & _); auto.
Qed.

(** X20. The range of every token row is as long as the form its id names in
    the form table. *)
Theorem token_range_is_form_length (uuid4 : nat -> str) (texts : list str) :
  let st := fst (lcp_tokens uuid4 texts) in
  Forall (fun r => exists tok,
                     In (tok_form r, tok) (form_rows st)
                     /\ tok_end r - tok_start r
                        = Z.of_nat (List.length tok)) (token_rows st).
Proof.
  destruct (TokInv_lcp_tokens uuid4 texts) as (_ & _ & _ & _ & _ & FR & R & _).
  cbv zeta; eapply Forall_impl; [|exact R].
  intros r (_ & _ & _ & _ & tok & I & L); exists tok; split; [|exact L].
  rewrite FR; apply (in_map (fun kv => (snd kv, fst kv)) _ _ I).
Qed.

Lemma lcp_segment_row (uuid4 : nat -> str) (st : Tokens) (segment : str) :
  nonempty (strip segment) = true ->
  char_offset (lcp_segment uuid4 st segment)
  = char_offset st + span (tokens_of (strip segment)) + 1
  /\ segment_rows (lcp_segment uuid4 st segment)
     = segment_rows st
       ++ [mkSegmentRow (uuid4 (List.length (segment_rows st)))
                        (char_offset st)
                        (char_offset st + span (tokens_of (strip segment))
                         - 1)].
Proof.
  intros H; unfold lcp_segment; rewrite H; cbn [negb char_offset segment_rows].
  destruct (tokens_fold (uuid4 (List.length (segment_rows st)))
                        (tokens_of (strip segment)) st) as [O S].
  now rewrite O, S.
Qed.

(** X21. A segment that is empty once stripped writes nothing. Any other
    segment writes one row, from the place the numbering stands to one
    before the place it reaches after the segment's tokens, and moves the
    numbering one further; a segment with delimiters only has no token, so
    its row ends one before it starts. *)
Theorem segment_row (uuid4 : nat -> str) (st : Tokens) (segment : str) :
  (nonempty (strip segment) = false -> lcp_segment uuid4 st segment = st)
  /\ (nonempty (strip segment) = true ->
      char_offset (lcp_segment uuid4 st segment)
      = char_offset st + span (tokens_of (strip segment)) + 1
      /\ segment_rows (lcp_segment uuid4 st segment)
         = segment_rows st
           ++ [mkSegmentRow (uuid4 (List.length (segment_rows st)))
                            (char_offset st)
                            (char_offset st
                             + span (tokens_of (strip segment)) - 1)])
  /\ (nonempty (strip segment) = true -> tokens_of (strip segment) = [] ->
      segment_rows (lcp_segment uuid4 st segment)
      = segment_rows st
        ++ [mkSegmentRow (uuid4 (List.length (segment_rows st)))
                         (char_offset st) (char_offset st - 1)]).
Proof.
  conjuncts.
  - intros H; unfold lcp_segment; now rewrite H.
  - apply lcp_segment_row.
  - intros H T.
    rewrite (proj2 (lcp_segment_row uuid4 st segment H)), T; simpl span.
    now rewrite Z.add_0_r.
Qed.

Lemma segment_row_witness :
  segment_rows (lcp_segment uuid_example initial_tokens (py " , "))
  = segment_rows initial_tokens
    ++ [mkSegmentRow (uuid_example (List.length (segment_rows initial_tokens)))
                     (char_offset initial_tokens)
                     (char_offset initial_tokens - 1)].
Proof.
  apply (proj2 (proj2 (segment_row uuid_example initial_tokens (py " , "))));
    vm_compute; reflexivity.
Defined.

Lemma split_on_clean (p : char -> bool) (s : str) :
  Forall (fun t => forallb (fun c => negb (p c)) t = true) (split_on p s)
  /\ concat (split_on p s) = filter (fun c => negb (p c)) s
  /\ split_on p s <> [].
Proof.
  induction s as [|c s (F & C & N)]; cbn [split_on filter].
  - conjuncts; [repeat constructor | reflexivity | discriminate].
  - destruct (p c) eqn:E; cbn [negb].
    + conjuncts; [constructor; [reflexivity | exact F] | exact C | discriminate].
    + destruct (split_on p s) as [|piece rest]; [contradiction|].
      inversion F as [|? ? Hp Hr]; subst.
      conjuncts; [|simpl in *; now rewrite C | discriminate].
      constructor; [simpl; now rewrite E | exact Hr].
Qed.

Lemma concat_filter_nonempty (l : list str) :
  concat (filter nonempty l) = concat l.
Proof.
  induction l as [|[|c t] l IH]; simpl; [reflexivity | exact IH|].
  now rewrite IH.
Qed.

(** X22. The tokens of a segment are not empty and have no delimiter in
    them, and put end to end they are the segment without its delimiters:
    tokenization loses no other character. *)
Theorem tokens_are_clean (segment : str) :
  Forall (fun t => t <> [] /\ forallb not_delimiter t = true)
         (tokens_of segment)
  /\ concat (tokens_of segment) = filter not_delimiter segment.
Proof.
  destruct (split_on_clean is_delimiter segment) as (F & C & _).
  unfold tokens_of; split.
  - apply Forall_forall; intros t Ht; apply filter_In in Ht as [Hi Hn].
    rewrite Forall_forall in F; split; [now apply nonempty_spec|].
    apply (F t Hi).
  - rewrite concat_filter_nonempty; exact C.
Qed.

Lemma join_cons (sep : char) (p : str) (l : list str) :
  l <> [] -> join sep (p :: l) = p ++ sep :: join sep l.
Proof. destruct l; [contradiction | reflexivity]. Qed.

Lemma lines_of_text (text : str) :
  join newline (split_on is_newline text) = text
  /\ List.length (split_on is_newline text)
     = S (count_occ N.eq_dec text newline).
Proof.
  induction text as [|c s [J L]]; [split; reflexivity|].
  destruct (split_on_clean is_newline s) as (_ & _ & N).
  cbn [split_on]; destruct (is_newline c) eqn:E; unfold is_newline in E.
  - apply N.eqb_eq in E; subst c.
    rewrite join_cons by exact N; rewrite J; cbn [length app].
    rewrite L, count_occ_cons_eq by reflexivity; split; reflexivity.
  - apply N.eqb_neq in E; rewrite count_occ_cons_neq by exact E.
    destruct (split_on is_newline s) as [|piece rest]; [contradiction|].
    split; [|exact L].
    destruct rest; simpl in *; now rewrite J.
Qed.

(** X23. The segments of a text are its lines: joined with newlines they
    give the text back, and there is one more of them than the text has
    newlines. *)
Theorem segments_are_lines (text : str) :
  join newline (split_on is_newline text) = text
  /\ List.length (split_on is_newline text)
     = S (count_occ N.eq_dec text newline).
Proof. exact (lines_of_text text). Qed.

Lemma lcp_segment_offset (uuid4 : nat -> str) (st : Tokens) (segment : str) :
  char_offset st <= char_offset (lcp_segment uuid4 st segment).
Proof.
  destruct (nonempty (strip segment)) eqn:H.
  - rewrite (proj1 (lcp_segment_row uuid4 st segment H)).
    pose proof (span_nonneg (tokens_of (strip segment))); lia.
  - unfold lcp_segment; rewrite H; simpl; lia.
Qed.

Lemma lcp_segments_offset (uuid4 : nat -> str) (text : str) (st : Tokens) :
  char_offset st <= char_offset (lcp_segments uuid4 st text).
Proof.
  unfold lcp_segments; generalize (split_on is_newline text); intros l.
  revert st; induction l as [|s l IH]; intros st; simpl; [lia|].
  pose proof (lcp_segment_offset uuid4 st s).
  pose proof (IH (lcp_segment uuid4 st s)); lia.
Qed.

Lemma chained_snoc (s : Z) (l : list (Z * Z)) (f b : Z) :
  chained s l f -> f - 1 <= b -> chained s (l ++ [(f, b)]) (b + 1).
Proof.
  revert s; induction l as [|[a e] l IH]; intros s; simpl.
  - intros <- H; auto.
  - intros (A & B & C) H; conjuncts; auto.
Qed.

Lemma ranges_fold (uuid4 : nat -> str) (texts : list str)
    (acc : Tokens * list (Z * Z)) (s : Z) :
  chained s (snd acc) (char_offset (fst acc)) ->
  chained s (snd (fold_left (lcp_tokens_document uuid4) texts acc))
          (char_offset (fst (fold_left (lcp_tokens_document uuid4) texts acc)))
  /\ List.length (snd (fold_left (lcp_tokens_document uuid4) texts acc))
     = (List.length (snd acc) + List.length texts)%nat.
Proof.
  revert acc; induction texts as [|t texts IH]; intros acc H; cbn [fold_left].
  - split; [exact H | simpl; lia].
  - destruct (IH (lcp_tokens_document uuid4 acc t)) as [C L].
    + cbn [lcp_tokens_document fst snd].
      pose proof (lcp_segments_offset uuid4 t (fst acc)) as O.
      replace (char_offset (lcp_segments uuid4 (fst acc) t))
        with (char_offset (lcp_segments uuid4 (fst acc) t) - 1 + 1) at 2
        by lia.
      apply chained_snoc; [exact H | lia].
    + split; [exact C|].
      rewrite L; cbn [lcp_tokens_document snd length].
      rewrite length_app; simpl; lia.
Qed.

(** X24. Every document gets one range; the first starts at 1, each ends
    one before the place the numbering has reached after the document's
    segments, and the next starts at that place, one after the end: the
    ranges follow one another through the corpus, and the end of a range is
    never less than its start minus one. *)
Theorem document_ranges_chain (uuid4 : nat -> str) (texts : list str) :
  chained 1 (snd (lcp_tokens uuid4 texts))
          (char_offset (fst (lcp_tokens uuid4 texts)))
  /\ List.length (snd (lcp_tokens uuid4 texts)) = List.length texts.
Proof.
  unfold lcp_tokens.
  destruct (ranges_fold uuid4 texts (initial_tokens, []) 1 eq_refl) as [C L].
  split; [exact C | exact L].
Qed.

(** ** The header metadata *)

Lemma dict_get_set_same {V : Type} (d : list (str * V)) (k : str) (v : V) :
  dict_get (dict_set d k v) k = Some v.
Proof.
  induction d as [|[k' v'] d IH]; simpl; [now rewrite str_eqb_refl|].
  destruct (str_eqb k' k) eqn:E; simpl; [now rewrite str_eqb_refl|].
  now rewrite E.
Qed.

Lemma dict_get_set_other {V : Type} (d : list (str * V)) (k k' : str)
    (v : V) :
  k <> k' -> dict_get (dict_set d k v) k' = dict_get d k'.
Proof.
  intros N.
  assert (Hk : str_eqb k k' = false).
  { destruct (str_eqb k k') eqn:E; [|reflexivity].
    apply str_eqb_eq in E; contradiction. }
  induction d as [|[k0 v0] d IH]; simpl; [now rewrite Hk|].
  destruct (str_eqb k0 k) eqn:E; simpl.
  - apply str_eqb_eq in E; subst k0; now rewrite Hk.
  - now rewrite IH.
Qed.

Lemma fold_left_keeps {A V : Type} (f : list (str * V) -> A -> list (str * V))
    (k : str) (l : list A) (md : list (str * V)) :
  (forall md x, dict_get (f md x) k = dict_get md k) ->
  dict_get (fold_left f l md) k = dict_get md k.
Proof.
  intros H; revert md; induction l as [|x l IH]; intros md; simpl;
    [reflexivity|].
  now rewrite IH, H.
Qed.

Lemma set_date_other (k : str) (md : list (str * Value)) (date : Element) :
  (forall x, py "date_" ++ x <> k) ->
  dict_get (set_date md date) k = dict_get md k.
Proof.
  intros H; unfold set_date; destruct (_ && _); [|reflexivity].
  apply dict_get_set_other, H.
Qed.

Lemma set_repository_other (k : str) (md : list (str * Value))
    (repo : Element) :
  (forall x, py "repository_" ++ x <> k) ->
  dict_get (set_repository md repo) k = dict_get md k.
Proof.
  intros H; unfold set_repository; destruct (_ && _); [|reflexivity].
  apply dict_get_set_other, H.
Qed.

Lemma set_idno_other (k : str) (md : list (str * Value)) (idno : Element) :
  (forall x, py "idno_" ++ x <> k) ->
  dict_get (set_idno md idno) k = dict_get md k.
Proof.
  intros H; unfold set_idno; destruct (truthy _); [|reflexivity].
  apply dict_get_set_other, H.
Qed.

Lemma set_orig_date_other (k : str) (root : Element)
    (md : list (str * Value)) :
  py "origDate_when" <> k -> py "origDate_text" <> k ->
  dict_get (set_orig_date root md) k = dict_get md k.
Proof.
  intros H1 H2; unfold set_orig_date; destruct (find2 _ _ root); [|reflexivity].
  now rewrite !dict_get_set_other.
Qed.

Lemma stripped_text_trimmed (e : Element) : trimmed (stripped_text e).
Proof. split; [apply strip_head | apply strip_tail]. Qed.

Ltac other_key :=
  intros; let H := fresh in intro H; cbv in H; discriminate H.

(** X25. The title of the metadata is the stripped text of the first title
    element of the title statement, and is there exactly when that element
    exists and has a non-empty text; a later title element is never used.
    The value has no whitespace at either end. *)
Theorem title_is_first_title (root : Element) :
  dict_get (extract_metadata root) (py "title")
  = match find2 "titleStmt" "title" root with
    | Some title_elem =>
        if truthy (text title_elem)
        then Some (VStr (stripped_text title_elem))
        else None
    | None => None
    end
  /\ (forall s, dict_get (extract_metadata root) (py "title") = Some (VStr s)
                -> trimmed s).
Proof.
  assert (E : dict_get (extract_metadata root) (py "title")
              = dict_get (set_title root []) (py "title")).
  { unfold extract_metadata; cbv zeta.
    rewrite set_orig_date_other by other_key.
    rewrite (fold_left_keeps set_idno (py "title"))
      by (intros; apply set_idno_other; other_key).
    rewrite (fold_left_keeps set_repository (py "title"))
      by (intros; apply set_repository_other; other_key).
    rewrite (fold_left_keeps set_date (py "title"))
      by (intros; apply set_date_other; other_key).
    apply dict_get_set_other; other_key. }
  rewrite E; unfold set_title.
  destruct (find2 "titleStmt" "title" root) as [e|]; [|split; [auto|discriminate]].
  destruct (truthy (text e)); [|split; [auto|discriminate]].
  split; [apply (dict_get_set_same [])|].
  intros s; rewrite (dict_get_set_same []); intros [= <-].
  apply stripped_text_trimmed.
Qed.

Lemma title_is_first_title_witness : trimmed (py "Stadtrecht").
Proof.
  apply (proj2 (title_is_first_title header_example) (py "Stadtrecht")).
  vm_compute; reflexivity.
Defined.

(** X26. The metadata always has the key editors, with the stripped texts of
    the persName elements of the editors that have a non-empty text, in
    document order; none of them has whitespace at either end. *)
Theorem editors_are_always_there (root : Element) :
  dict_get (extract_metadata root) (py "editors")
  = Some (VList (editors root))
  /\ Forall trimmed (editors root)
  /\ (List.length (editors root)
      <= List.length (findall3 "titleStmt" "editor" "persName" root))%nat.
Proof.
  conjuncts.
  - unfold extract_metadata; cbv zeta.
    rewrite set_orig_date_other by other_key.
    rewrite (fold_left_keeps set_idno (py "editors"))
      by (intros; apply set_idno_other; other_key).
    rewrite (fold_left_keeps set_repository (py "editors"))
      by (intros; apply set_repository_other; other_key).
    rewrite (fold_left_keeps set_date (py "editors"))
      by (intros; apply set_date_other; other_key).
    apply dict_get_set_same.
  - unfold editors; apply Forall_map, Forall_forall.
    intros e _; apply stripped_text_trimmed.
  - unfold editors; rewrite length_map; apply filter_length_le.
Qed.

(** X27. When the header has a date of origin, the metadata has its
    canonical text under origDate_text and its [when] attribute under
    origDate_when, the empty string when the attribute is missing; without
    one, the metadata has neither key. *)
Theorem orig_date_entries (root : Element) :
  match find2 "origin" "origDate" root with
  | Some orig_date =>
      dict_get (extract_metadata root) (py "origDate_text")
      = Some (VStr (get_element_text orig_date))
      /\ dict_get (extract_metadata root) (py "origDate_when")
         = Some (VStr (or_empty (get (attrib orig_date) (py "when"))))
  | None =>
      dict_get (extract_metadata root) (py "origDate_text") = None
      /\ dict_get (extract_metadata root) (py "origDate_when") = None
  end.
Proof.
  unfold extract_metadata; cbv zeta; unfold set_orig_date at 1 2 3 4.
  destruct (find2 "origin" "origDate" root) as [e|].
  - split; [apply dict_get_set_same|].
    rewrite dict_get_set_other by other_key; apply dict_get_set_same.
  - assert (H : forall k,
               (forall x, py "idno_" ++ x <> k) ->
               (forall x, py "repository_" ++ x <> k) ->
               (forall x, py "date_" ++ x <> k) ->
               py "editors" <> k -> py "title" <> k ->
               dict_get
                 (fold_left set_idno (findall2 "msIdentifier" "idno" root)
                    (fold_left set_repository
                       (findall2 "msIdentifier" "repository" root)
                       (fold_left set_date
                          (findall2 "publicationStmt" "date" root)
                          (dict_set (set_title root []) (py "editors")
                                    (VList (editors root)))))) k = None).
    { intros k H1 H2 H3 H4 H5.
      rewrite (fold_left_keeps set_idno k)
        by (intros; apply set_idno_other; exact H1).
      rewrite (fold_left_keeps set_repository k)
        by (intros; apply set_repository_other; exact H2).
      rewrite (fold_left_keeps set_date k)
        by (intros; apply set_date_other; exact H3).
      rewrite dict_get_set_other by exact H4.
      unfold set_title; destruct (find2 _ _ root) as [e|]; [|reflexivity].
      destruct (truthy (text e)); [|reflexivity].
      now rewrite dict_get_set_other. }
    split; apply H; other_key.
Qed.

Lemma set_idno_cases (md : list (str * Value)) (idno : Element) :
  set_idno md idno = md
  \/ set_idno md idno
     = dict_set md (py "idno_" ++ formatted (get (attrib idno) (tei "lang")))
                (VStr (stripped_text idno)).
Proof. unfold set_idno; destruct (truthy _); auto. Qed.

Lemma idno_none_fold (l : list Element) (md : list (str * Value))
    (idno : Element) :
  In idno l -> truthy (text idno) = true ->
  get (attrib idno) (tei "lang") = None ->
  exists e, In e l
            /\ dict_get (fold_left set_idno l md) (py "idno_None")
               = Some (VStr (stripped_text e)).
Proof.
  induction l as [|x l IH] using rev_ind; intros Hin T L; [contradiction|].
  rewrite fold_left_app; cbn [fold_left].
  apply in_app_or in Hin as [Hin | [-> | []]].
  - destruct (IH Hin T L) as (e & He & G).
    destruct (set_idno_cases (fold_left set_idno l md) x) as [-> | ->].
    + exists e; split; [apply in_or_app; now left | exact G].
    + destruct (list_eq_dec N.eq_dec
                  (py "idno_" ++ formatted (get (attrib x) (tei "lang")))
                  (py "idno_None")) as [K | K].
      * exists x; split; [apply in_or_app; right; now left|].
        rewrite K; apply dict_get_set_same.
      * exists e; split; [apply in_or_app; now left|].
        now rewrite dict_get_set_other.
  - exists idno; split; [apply in_or_app; right; now left|].
    unfold set_idno; rewrite T, L; apply dict_get_set_same.
Qed.

(** X28. An identifier with a text and no language attribute is filed under
    the key idno_None, the name Python gives to [None] inside the f-string:
    when the header has one, the metadata has that key, with the stripped
    text of one of the header's identifiers. *)
Theorem idno_without_language (root : Element) (idno : Element) :
  In idno (findall2 "msIdentifier" "idno" root) ->
  truthy (text idno) = true ->
  get (attrib idno) (tei "lang") = None ->
  exists e, In e (findall2 "msIdentifier" "idno" root)
            /\ dict_get (extract_metadata root) (py "idno_None")
               = Some (VStr (stripped_text e)).
Proof.
  intros Hin T L; unfold extract_metadata; cbv zeta.
  rewrite set_orig_date_other by other_key.
  apply (idno_none_fold _ _ idno Hin T L).
Qed.

Lemma idno_without_language_witness :
  exists e, In e (findall2 "msIdentifier" "idno" header_example)
            /\ dict_get (extract_metadata header_example) (py "idno_None")
               = Some (VStr (stripped_text e)).
Proof.
  apply (idno_without_language header_example
           (node "idno" [] (lit "StAZH 1") None [])).
  - vm_compute; left; reflexivity.
  - reflexivity.
  - reflexivity.
Defined.

(** ** From the walker to the export *)

(** X29. The text of an extracted document is cut by the export into
    exactly one more line than the walker met line breaks: only line breaks
    start a new segment. *)
Theorem lines_of_a_document (root : Element) :
  List.length (split_on is_newline (extract_text root))
  = S (walked_line_breaks root).
Proof.
  destruct (extract_facts root) as (_ & _ & C & _).
  rewrite (proj2 (lines_of_text (extract_text root))), C; reflexivity.
Qed.

Lemma annotated_eq (e : Element) :
  annotated e
  = if is_name e "pb" then 0%nat
    else if is_name e "lb" then 0%nat
    else if is_name e "choice" then 1%nat
    else if is_name e "note" then 1%nat
    else if is_name e "subst" then 1%nat
    else (list_sum (map annotated (children e))
          + if negb (existsb (str_eqb (element_name e)) structural)
            then match attrib e with [] => 0 | _ :: _ => 1 end
            else 0)%nat.
Proof. destruct e; reflexivity. Qed.

Lemma add_if_annotations (t : option str) (ctx : Context) :
  annotations (add_if t ctx) = annotations ctx.
Proof. rewrite add_if_eq; apply add_text_to_context_frame. Qed.

Lemma annotate_count (e : Element) (start : Z) (ctx : Context) :
  List.length (annotations (annotate e start ctx))
  = (List.length (annotations ctx)
     + if negb (existsb (str_eqb (element_name e)) structural)
       then match attrib e with [] => 0 | _ :: _ => 1 end
       else 0)%nat.
Proof.
  unfold annotate; destruct (negb _); [|lia].
  destruct (attrib e); simpl; [lia|].
  rewrite length_app; reflexivity.
Qed.

Lemma walk_children_count (cs : list Element) :
  Forall (fun e => forall ctx,
            List.length (annotations (process_element e ctx))
            = (List.length (annotations ctx) + annotated e)%nat) cs ->
  forall ctx,
    List.length (annotations (walk_children cs ctx))
    = (List.length (annotations ctx) + list_sum (map annotated cs))%nat.
Proof.
  unfold walk_children.
  induction 1 as [|c cs Hc _ IH]; intros ctx; simpl; [lia|].
  rewrite IH, add_if_annotations, Hc; lia.
Qed.

Lemma process_element_count (e : Element) :
  forall ctx,
    List.length (annotations (process_element e ctx))
    = (List.length (annotations ctx) + annotated e)%nat.
Proof.
  induction e as [t a tx tl cs IH] using Element_ind; intros ctx.
  rewrite process_element_eq, annotated_eq.
  destruct (is_name _ "pb") eqn:Npb.
  { rewrite annotate_count, (is_name_eq _ _ Npb).
    unfold page_break; destruct (truthy _); simpl; lia. }
  destruct (is_name _ "lb") eqn:Nlb.
  { rewrite annotate_count, (is_name_eq _ _ Nlb); simpl; lia. }
  destruct (is_name _ "choice").
  { unfold choice; cbn [append_annotation annotations].
    rewrite length_app, add_if_annotations; reflexivity. }
  destruct (is_name _ "note").
  { unfold note; cbn [append_annotation annotations].
    rewrite length_app; destruct (last_char_is_whitespace ctx); reflexivity. }
  destruct (is_name _ "subst").
  { unfold subst; cbn [append_annotation annotations].
    rewrite length_app, add_if_annotations; reflexivity. }
  rewrite annotate_count.
  change (fold_left _ (children (mkElement t a tx tl cs)) ?c)
    with (walk_children cs c).
  rewrite (walk_children_count cs IH), add_if_annotations.
  cbn [children]; lia.
Qed.

(** X30. A document has exactly one annotation for each choice, note and
    substitution the walker meets and one for each other walked node with
    attributes and a tag that is not structural; page breaks, line breaks,
    and whatever lies under a special form add none. *)
Theorem annotations_are_counted (root : Element) :
  List.length (extract_annotations root) = walked_annotations root.
Proof.
  unfold extract_annotations, extract_context, walked_annotations.
  destruct (find_descendant "body" root) as [body|]; [|reflexivity].
  apply (process_element_count body initial_context).
Qed.
